(** * hooker: webhook-triggered repository synchronisation

    A shallow embedding of [main.go] (the version with the process-wide
    mutex and the two webhook shapes).  The file is organised as the
    program is:

    - the part of [encoding/json] the handler relies on, at the level
      of parsed documents;
    - [BitbucketServerWebhook], [GitLabWebhook], their [Ref] methods
      and [unmarshalPayload];
    - [filepath.Join];
    - the calls the handler makes on its environment (logger, mutex,
      [os.Stat], git2go, [http.ResponseWriter]) as a free monad, with a
      sequential interpreter over an explicit world;
    - [handleWebhook];
    - goroutines interleaved under the mutex. *)

From stdpp Require Import base option list strings gmap.
From Stdlib Require Import Ascii String.

Set Warnings "-register-all".
Open Scope string_scope.
Open Scope list_scope.

(* ===================================================================== *)
(** ** Go values used throughout *)

(** A Go [error] value.  Only its origin and its text are observable
    by the handler (through [%s]). *)
Inductive error :=
| ReadError (msg : string)
| SyntaxError (msg : string)
| UnmarshalTypeError (value : string) (type : string)
| PathError (op path : string)
| GitError (msg : string).

Definition Error (e : error) : string :=
  match e with
  | ReadError msg => msg
  | SyntaxError msg => msg
  | UnmarshalTypeError value type =>
      "json: cannot unmarshal " ++ value ++ " into Go value of type " ++ type
  | PathError op path => op ++ " " ++ path ++ ": no such file or directory"
  | GitError msg => msg
  end.

(** The result of running Go code that may panic. *)
Inductive outcome (A : Type) :=
| Ret (a : A)
| Panic (msg : string).
Arguments Ret {A} a.
Arguments Panic {A} msg.

Definition nil_interface_assertion : string :=
  "interface conversion: interface is nil, not main.Ref".
Definition nil_dereference : string :=
  "runtime error: invalid memory address or nil pointer dereference".

(* ===================================================================== *)
(** ** encoding/json, as far as [json.Unmarshal] is used *)

(** A syntactically valid document, as the scanner of [encoding/json]
    delivers it: string literals are already unquoted, the members
    of an object are kept in the order of the text, duplicates
    included. *)
Inductive json :=
| JNull
| JBool (b : bool)
| JNumber (literal : string)
| JString (s : string)
| JArray (elems : list json)
| JObject (members : list (string * json)).

(** The bytes of a request body: [json.Unmarshal] first validates the
    whole input ([checkValid]) and touches its target only when the
    input is one JSON document. *)
Inductive payload :=
| Garbage (why : string)
| Doc (v : json).

(** The word [UnmarshalTypeError] uses for a JSON value. *)
Definition kind (v : json) : string :=
  match v with
  | JNull => "null"
  | JBool _ => "bool"
  | JNumber _ => "number"
  | JString _ => "string"
  | JArray _ => "array"
  | JObject _ => "object"
  end.

(** Struct fields are matched with the key by name, letter case
    ignored ([equalFoldRight] of [encoding/json]): an ASCII byte of the
    key matches the same letter in either case; the two non-ASCII
    runes that fold to a letter, U+017F (long s) and U+212A (Kelvin
    sign), match [s] and [k]. *)
Definition upper (a : ascii) : nat :=
  let n := nat_of_ascii a in
  if (Nat.leb 97 n && Nat.leb n 122)%bool then n - 32 else n.

Definition isLetter (a : ascii) : bool :=
  (Nat.leb 65 (upper a) && Nat.leb (upper a) 90)%bool.

Definition bytes (ns : list nat) : string :=
  fold_right (fun n s => String (ascii_of_nat n) s) EmptyString ns.

Definition longS : string := bytes [197; 191].
Definition kelvin : string := bytes [226; 132; 170].

Definition stripPrefix (p s : string) : option string :=
  if String.prefix p s
  then Some (String.substring (String.length p) (String.length s - String.length p) s)
  else None.

Fixpoint equalFold (name key : string) : bool :=
  match name with
  | EmptyString => match key with EmptyString => true | _ => false end
  | String a name' =>
      match key with
      | EmptyString => false
      | String b key' =>
          if Nat.ltb (nat_of_ascii b) 128
          then (Ascii.eqb a b || (isLetter a && Nat.eqb (upper a) (upper b)))
               && equalFold name' key'
          else
            let rune :=
              if Nat.eqb (upper a) 83 then Some longS
              else if Nat.eqb (upper a) 75 then Some kelvin
              else None in
            match rune with
            | None => false
            | Some u =>
                match stripPrefix u key with
                | Some rest => equalFold name' rest
                | None => false
                end
            end
      end
  end.

(** [d.saveError]: the decoder goes on after a type mismatch and
    reports the first one at the end. *)
Definition saveError (saved : option error) (e : error) : option error :=
  match saved with
  | None => Some e
  | Some _ => saved
  end.

(** Decoding into a Go [string]: [null] leaves it alone, a string
    literal is stored, anything else is a type mismatch. *)
Definition decodeString (v : json) (cur : string) (saved : option error)
  : string * option error :=
  match v with
  | JNull => (cur, saved)
  | JString s => (s, saved)
  | _ => (cur, saveError saved (UnmarshalTypeError (kind v) "string"))
  end.

(* ===================================================================== *)
(** ** The webhook shapes *)

(** One element of [RefChanges]: [struct { RefID string `json:"refId"` }]. *)
Record RefChange := { RefID : string }.

(** [RefChanges] is a Go slice.  [elems] are the elements below its
    length; [spare] is what the backing array holds beyond the length,
    which [json.Unmarshal] brings back into view when it grows the
    slice in place. *)
Record slice := { elems : list RefChange; spare : list RefChange }.

Record BitbucketServerWebhook := { RefChanges : slice }.

(** [ref] is unexported: [encoding/json] has no field to store into. *)
Record GitLabWebhook := { ref : string }.

Definition zeroRefChange : RefChange := {| RefID := "" |}.
Definition nilSlice : slice := {| elems := []; spare := [] |}.
Definition zeroBitbucket : BitbucketServerWebhook := {| RefChanges := nilSlice |}.
Definition zeroGitLab : GitLabWebhook := {| ref := "" |}.

(** Decoding the members of a JSON object into a change record, in the
    order of the text. *)
Fixpoint decodeRefChangeMembers (ms : list (string * json)) (cur : RefChange)
    (saved : option error) : RefChange * option error :=
  match ms with
  | [] => (cur, saved)
  | (k, v) :: rest =>
      if equalFold "refId" k
      then let '(s, saved') := decodeString v (RefID cur) saved in
           decodeRefChangeMembers rest {| RefID := s |} saved'
      else decodeRefChangeMembers rest cur saved
  end.

Definition decodeRefChange (v : json) (cur : RefChange) (saved : option error)
    : RefChange * option error :=
  match v with
  | JNull => (cur, saved)
  | JObject ms => decodeRefChangeMembers ms cur saved
  | _ => (cur, saveError saved (UnmarshalTypeError (kind v) "struct { RefID string }"))
  end.

(** [d.array] on a slice: element [i] of the text is decoded into slot
    [i] of the backing array (a zero value when the array had to grow);
    the slots behind the last one stay in the backing array. *)
Fixpoint decodeElems (vs : list json) (backing : list RefChange)
    (saved : option error) : list RefChange * list RefChange * option error :=
  match vs with
  | [] => ([], backing, saved)
  | v :: vs' =>
      let '(slot, backing') :=
        match backing with
        | [] => (zeroRefChange, [])
        | x :: xs => (x, xs)
        end in
      let '(r, saved') := decodeRefChange v slot saved in
      let '(rs, rest, saved'') := decodeElems vs' backing' saved' in
      (r :: rs, rest, saved'')
  end.

Definition decodeSlice (v : json) (cur : slice) (saved : option error)
    : slice * option error :=
  match v with
  | JNull => (nilSlice, saved)
  | JArray [] => (nilSlice, saved)
  | JArray vs =>
      let '(rs, rest, saved') := decodeElems vs (elems cur ++ spare cur) saved in
      ({| elems := rs; spare := rest |}, saved')
  | _ => (cur, saveError saved (UnmarshalTypeError (kind v) "[]struct { RefID string }"))
  end.

Fixpoint decodeBitbucketMembers (ms : list (string * json))
    (cur : BitbucketServerWebhook) (saved : option error)
    : BitbucketServerWebhook * option error :=
  match ms with
  | [] => (cur, saved)
  | (k, v) :: rest =>
      if equalFold "refChanges" k
      then let '(sl, saved') := decodeSlice v (RefChanges cur) saved in
           decodeBitbucketMembers rest {| RefChanges := sl |} saved'
      else decodeBitbucketMembers rest cur saved
  end.

(** The two values of the [services] list: non-nil pointers to the two
    structs, each implementing [Ref]. *)
Inductive service :=
| Bitbucket (b : BitbucketServerWebhook)
| GitLab (w : GitLabWebhook).

(** A value of interface type [Ref] (or of [interface{}] holding one of
    the services): [None] is the nil interface. *)
Definition Ref : Type := option service.

Definition typeName (s : service) : string :=
  match s with
  | Bitbucket _ => "main.BitbucketServerWebhook"
  | GitLab _ => "main.GitLabWebhook"
  end.

(** [json.Unmarshal(data, &s)] for [s] an [interface{}] holding one of
    the services.  A top-level [null] is stored into the interface
    itself, which becomes nil; every other document is decoded through
    the pointer into the struct. *)
Definition json_Unmarshal (data : payload) (s : service) : Ref * option error :=
  match data with
  | Garbage why => (Some s, Some (SyntaxError why))
  | Doc JNull => (None, None)
  | Doc (JObject ms) =>
      match s with
      | Bitbucket b =>
          let '(b', e) := decodeBitbucketMembers ms b None in (Some (Bitbucket b'), e)
      | GitLab w => (Some (GitLab w), None)
      end
  | Doc v => (Some s, Some (UnmarshalTypeError (kind v) (typeName s)))
  end.

(** [func (b BitbucketServerWebhook) Ref() string] *)
Fixpoint Bitbucket_Ref_loop (rs : list RefChange) : string :=
  match rs with
  | [] => "not master"
  | r :: rest =>
      if String.eqb (RefID r) "refs/heads/master"
      then "refs/heads/master"
      else Bitbucket_Ref_loop rest
  end.

Definition BitbucketServerWebhook_Ref (b : BitbucketServerWebhook) : string :=
  Bitbucket_Ref_loop (elems (RefChanges b)).

(** [func (w GitLabWebhook) Ref() string] *)
Definition GitLabWebhook_Ref (w : GitLabWebhook) : string := ref w.

(** The call [ref.Ref()] on an interface value. *)
Definition call_Ref (r : Ref) : outcome string :=
  match r with
  | None => Panic nil_dereference
  | Some (Bitbucket b) => Ret (BitbucketServerWebhook_Ref b)
  | Some (GitLab w) => Ret (GitLabWebhook_Ref w)
  end.

(** What [ioutil.ReadAll(r.Body)] gives. *)
Inductive Reader :=
| Broken (e : error)
| Bytes (data : payload).

Definition services : list service := [Bitbucket zeroBitbucket; GitLab zeroGitLab].

(** The loop of [unmarshalPayload].  The [err] tested in the loop is
    declared by [if err := ...] and lives in that statement only; the
    [err] of the final [return nil, err] is the one [ioutil.ReadAll]
    assigned, passed here as [outer]. *)
Fixpoint unmarshalLoop (data : payload) (ss : list service) (outer : option error)
    : outcome (Ref * option error) :=
  match ss with
  | [] => Ret (None, outer)
  | s :: rest =>
      match json_Unmarshal data s with
      | (s', None) =>
          match s' with
          | Some x => Ret (Some x, None)
          | None => Panic nil_interface_assertion
          end
      | (_, Some _) => unmarshalLoop data rest outer
      end
  end.

Definition unmarshalPayload (r : Reader) : outcome (Ref * option error) :=
  match r with
  | Broken e => Ret (None, Some e)
  | Bytes data => unmarshalLoop data services None
  end.

(** The earlier version of the function, kept in the same source
    file: one shape, decoded into the struct itself, and the decode
    error assigned to the [err] that is returned. *)
Definition unmarshalPayload_v1 (r : Reader) : Ref * option error :=
  match r with
  | Broken e => (None, Some e)
  | Bytes data =>
      let err :=
        match data with
        | Garbage why => Some (SyntaxError why)
        | Doc JNull => None
        | Doc (JObject ms) => snd (decodeBitbucketMembers ms zeroBitbucket None)
        | Doc v => Some (UnmarshalTypeError (kind v) "main.BitbucketWebhook")
        end in
      match err with
      | None =>
          match data with
          | Doc (JObject ms) =>
              (Some (Bitbucket (fst (decodeBitbucketMembers ms zeroBitbucket None))), None)
          | _ => (Some (Bitbucket zeroBitbucket), None)
          end
      | Some e => (None, Some e)
      end
  end.

(* ===================================================================== *)
(** ** path/filepath *)

(** The components of a path between its separators. *)
Fixpoint splitPath (s : string) : list string :=
  match s with
  | EmptyString => [EmptyString]
  | String c s' =>
      if Ascii.eqb c "/"
      then EmptyString :: splitPath s'
      else match splitPath s' with
           | h :: t => String c h :: t
           | [] => [String c EmptyString]
           end
  end.

(** One component of [filepath.Clean]; [stack] holds the components
    kept so far, the last one first. *)
Definition cleanStep (rooted : bool) (stack : list string) (comp : string)
    : list string :=
  if String.eqb comp "" || String.eqb comp "." then stack
  else if String.eqb comp ".." then
    match stack with
    | top :: rest => if String.eqb top ".." then comp :: stack else rest
    | [] => if rooted then [] else [comp]
    end
  else comp :: stack.

Definition Clean (path : string) : string :=
  if String.eqb path "" then "."
  else
    let rooted := String.prefix "/" path in
    let kept := rev (fold_left (cleanStep rooted) (splitPath path) []) in
    let body := String.concat "/" kept in
    if rooted then "/" ++ body
    else if String.eqb body "" then "." else body.

(** [filepath.Join]: leading empty elements are dropped, the rest is
    joined with the separator and cleaned. *)
Fixpoint Join (elem : list string) : string :=
  match elem with
  | [] => ""
  | e :: rest =>
      if String.eqb e "" then Join rest
      else Clean (String.concat "/" elem)
  end.

(* ===================================================================== *)
(** ** The environment of the handler *)

Record Config := { HookPath : string; Host : string; Port : nat }.

Record Request := { Body : Reader; URL_Path : string }.

(** An object id. *)
Abbreviation Oid := string.

Record FileInfo := { IsDir : bool }.

(** Handles of git2go.  A [Reference] is a snapshot: [Target] is the
    commit the reference pointed to when it was looked up. *)
Record Repository := { repo_path : string }.
Record Remote := { remote_repo : Repository; remote_name : string }.
Record Reference := { ref_repo : Repository; ref_name : string; Target : Oid }.
Record AnnotatedCommit := { annotated_id : Oid }.
Record Commit := { commit_repo : Repository; commit_id : Oid }.
Record Tree := { tree_repo : Repository; tree_commit : Oid }.

Inductive CheckoutStrategy := CheckoutForce.

Definition result (A : Type) : Type := A + error.

(** The calls [handleWebhook] makes, indexed by what they return. *)
Inductive Eff : Type -> Type :=
| log_Println (msg : string) : Eff unit
| log_Printf (text : string) : Eff unit
| mutex_Lock : Eff unit
| mutex_Unlock : Eff unit
| os_Stat (name : string) : Eff (result FileInfo)
| git_OpenRepositoryExtended (path : string) : Eff (result Repository)
| LookupRemote (repo : Repository) (name : string) : Eff (result Remote)
| Fetch (remote : Remote) : Eff (option error)
| LookupReference (repo : Repository) (name : string) : Eff (result Reference)
| AnnotatedCommitFromRef (repo : Repository) (r : Reference) : Eff (result AnnotatedCommit)
| Merge (repo : Repository) (theirHeads : list AnnotatedCommit) : Eff (option error)
| LookupCommit (repo : Repository) (id : Oid) : Eff (result Commit)
| Commit_Tree (c : Commit) : Eff (result Tree)
| CheckoutTree (repo : Repository) (t : Tree) (strategy : CheckoutStrategy) : Eff (option error)
| Head (repo : Repository) : Eff (result Reference)
| SetTarget (r : Reference) (target : Oid) : Eff (result Reference)
| StateCleanup (repo : Repository) : Eff (option error)
| http_Error (text : string) (code : nat) : Eff unit
| WriteHeader (code : nat) : Eff unit
| Write (body : string) : Eff unit.

(** A Go function body over these calls: it returns, panics, or makes a
    call and goes on with the answer. *)
Inductive prog (A : Type) : Type :=
| Done (a : A)
| Crash (msg : string)
| Do {X : Type} (e : Eff X) (k : X -> prog A).
Arguments Done {A} a.
Arguments Crash {A} msg.
Arguments Do {A X} e k.

Notation "x <- e ;; k" := (Do e (fun x => k))
  (at level 100, e at next level, right associativity).
Notation "e ;;; k" := (Do e (fun _ => k))
  (at level 100, right associativity).

(** [defer d] at the head of [body]: [d] runs when [body] returns and
    when it panics. *)
Fixpoint defer {A} (d : Eff unit) (body : prog A) : prog A :=
  match body with
  | Done a => d ;;; Done a
  | Crash msg => d ;;; Crash msg
  | Do e k => Do e (fun x => defer d (k x))
  end.

Definition nl : string := String (ascii_of_nat 10) EmptyString.
Definition StatusInternalServerError : nat := 500.
Definition StatusNotFound : nat := 404.
Definition StatusForbidden : nat := 403.

(* ===================================================================== *)
(** ** handleWebhook *)

(** The closure [http500]; every call of it is followed by [return]. *)
Definition http500 (msg : string) : prog unit :=
  log_Println msg ;;;
  http_Error "500" StatusInternalServerError ;;;
  Done tt.

(** The statements of [handleWebhook] from [git.OpenRepositoryExtended]
    on: the synchronisation proper. *)
Definition synchronise (c : Config) (r : Request) (rdir : string) : prog unit :=
  repo <- git_OpenRepositoryExtended rdir ;;
  match repo with
  | inr _ => http500 "could not open git repository"
  | inl repo =>
  remote <- LookupRemote repo "origin" ;;
  match remote with
  | inr _ => http500 "could not lookup remote 'origin'"
  | inl remote =>
  err <- Fetch remote ;;
  match err with
  | Some err => http500 ("could not fetch 'origin': " ++ Error err)
  | None =>
  remoteRef <- LookupReference repo "refs/remotes/origin/master" ;;
  match remoteRef with
  | inr err => http500 ("could not lookup 'refs/remotes/origin/master': " ++ Error err)
  | inl remoteRef =>
  let remoteTarget := Target remoteRef in
  remHead <- AnnotatedCommitFromRef repo remoteRef ;;
  match remHead with
  | inr err => http500 ("could not get commit from ref: " ++ Error err)
  | inl remHead =>
  err <- Merge repo [remHead] ;;
  match err with
  | Some err => http500 ("could not merge origin/master into local repo: " ++ Error err)
  | None =>
  remCommit <- LookupCommit repo remoteTarget ;;
  match remCommit with
  | inr err => http500 ("could not lookup commit on remote: " ++ Error err)
  | inl remCommit =>
  remTree <- Commit_Tree remCommit ;;
  match remTree with
  | inr err => http500 ("could not lookup remote tree: " ++ Error err)
  | inl remTree =>
  err <- CheckoutTree repo remTree CheckoutForce ;;
  match err with
  | Some err => http500 ("could not checkout remote tree: " ++ Error err)
  | None =>
  head <- Head repo ;;
  match head with
  | inr err => http500 ("could not get head: " ++ Error err)
  | inl head =>
  localBranch <- LookupReference repo "refs/heads/master" ;;
  match localBranch with
  | inr err => http500 ("could not lookup local master: " ++ Error err)
  | inl localBranch =>
  SetTarget localBranch remoteTarget ;;;
  SetTarget head remoteTarget ;;;
  StateCleanup repo ;;;
  log_Printf ("repository '" ++ Join [HookPath c; URL_Path r] ++ "' updated." ++ nl) ;;;
  WriteHeader 200 ;;;
  Write "ok" ;;;
  Done tt
  end end end end end end end end end end end.

(** The statements of [handleWebhook] that follow
    [defer mutex.Unlock()]. *)
Definition criticalSection (c : Config) (r : Request) : prog unit :=
  f <- os_Stat (Join [HookPath c; URL_Path r]) ;;
  match f with
  | inr err =>
      log_Printf ("invalid repository '" ++ Join [HookPath c; URL_Path r] ++ "': "
                  ++ Error err ++ nl) ;;;
      http_Error "404" StatusNotFound ;;;
      Done tt
  | inl f =>
  if negb (IsDir f) then
    log_Printf ("not a directory: '" ++ Join [HookPath c; URL_Path r] ++ "'" ++ nl) ;;;
    http_Error "404" StatusNotFound ;;;
    Done tt
  else
  let rdir := Join [HookPath c; URL_Path r; ".git"] in
  f <- os_Stat rdir ;;
  match f with
  | inr _ =>
      log_Println "not a git repository" ;;;
      http_Error "403" StatusForbidden ;;;
      Done tt
  | inl f =>
  if negb (IsDir f) then
    log_Println ".git a file, not a repository" ;;;
    http_Error "403" StatusForbidden ;;;
    Done tt
  else
  synchronise c r rdir
  end end.

Definition handleWebhook (c : Config) (r : Request) : prog unit :=
  match unmarshalPayload (Body r) with
  | Panic msg => Crash msg
  | Ret (ref, err) =>
  match err with
  | Some err => http500 ("invalid payload: " ++ Error err)
  | None =>
  match call_Ref ref with
  | Panic msg => Crash msg
  | Ret changed =>
  if negb (String.eqb changed "refs/heads/master") then
    http500 ("ignoring changeset on '" ++ URL_Path r ++ "', not a change on master" ++ nl)
  else
  log_Printf ("updating repository '" ++ Join [HookPath c; URL_Path r] ++ "'" ++ nl) ;;;
  mutex_Lock ;;;
  defer mutex_Unlock (criticalSection c r)
  end end end.

(* ===================================================================== *)
(** ** The world the calls act on *)

Inductive FileKind := Directory | RegularFile.

Inductive HEADState :=
| Symbolic (name : string)
| Detached (id : Oid).

Inductive WorkTree :=
| TreeOf (id : Oid)
| Mixed.

Inductive RepositoryState := StateNone | StateMerge.

(** A repository as libgit2 sees it: its direct references, where HEAD
    points, the branch [master] of the remote [origin] as the server
    has it now ([None]: no remote of that name; [Some None]: no such
    branch), the working tree and the pending-operation state.

    The model follows the one branch the handler names.  A fetch is
    taken to write [refs/remotes/origin/master] only, where libgit2
    writes every reference the refspecs of the remote give; what a
    fetch does to other references is outside the model. *)
Record GitRepo := {
  refs : gmap string Oid;
  HEAD : HEADState;
  origin : option (option Oid);
  worktree : WorkTree;
  state : RepositoryState }.

(** [failing] marks the library calls that fail for a reason the model
    does not describe (a lock file, permissions, the network).

    A repository is known by the path it was opened with.  Two paths
    that lead to one repository, by a symbolic link or by the search of
    libgit2 through the parent directories, are outside the model:
    nothing below speaks of a repository other than the one the
    handler opened. *)
Record World := {
  files : gmap string FileKind;
  repositories : gmap string GitRepo;
  locked : bool;
  failing : forall X, Eff X -> bool }.

Definition setLocked (b : bool) (w : World) : World :=
  {| files := files w; repositories := repositories w;
     locked := b; failing := failing w |}.

Definition setRepo (repo : Repository) (g : GitRepo) (w : World) : World :=
  {| files := files w; repositories := <[repo_path repo := g]> (repositories w);
     locked := locked w; failing := failing w |}.

Definition setRef (name : string) (id : Oid) (g : GitRepo) : GitRepo :=
  {| refs := <[name := id]> (refs g); HEAD := HEAD g; origin := origin g;
     worktree := worktree g; state := state g |}.

Definition setHEAD (h : HEADState) (g : GitRepo) : GitRepo :=
  {| refs := refs g; HEAD := h; origin := origin g;
     worktree := worktree g; state := state g |}.

Definition setWorktree (t : WorkTree) (g : GitRepo) : GitRepo :=
  {| refs := refs g; HEAD := HEAD g; origin := origin g;
     worktree := t; state := state g |}.

Definition setState (s : RepositoryState) (g : GitRepo) : GitRepo :=
  {| refs := refs g; HEAD := HEAD g; origin := origin g;
     worktree := worktree g; state := s |}.

(** The commit HEAD resolves to. *)
Definition resolveHEAD (g : GitRepo) : option Oid :=
  match HEAD g with
  | Symbolic name => refs g !! name
  | Detached id => Some id
  end.

(** [master], the tracking reference and, unless HEAD is a symbolic
    reference to itself, HEAD all at [id]. *)
Definition syncedAt (id : Oid) (g : GitRepo) : Prop :=
  refs g !! "refs/remotes/origin/master" = Some id /\
  refs g !! "refs/heads/master" = Some id /\
  (HEAD g <> Symbolic "HEAD" -> resolveHEAD g = Some id).

Definition ioError : error := GitError "input/output error".
Definition notFound (what : string) : error := GitError (what ++ " not found").
Definition modified : error := GitError "old reference value does not match".

(** A call that reads the repository behind a handle. *)
Definition reading {A} (X : Type) (e : Eff X) (repo : Repository) (w : World)
    (f : GitRepo -> result A) : result A :=
  if failing w X e then inr ioError
  else match repositories w !! repo_path repo with
       | None => inr (notFound "repository")
       | Some g => f g
       end.

(** A call that changes it. *)
Definition writing (X : Type) (e : Eff X) (repo : Repository) (w : World)
    (f : GitRepo -> GitRepo) : option error * World :=
  if failing w X e then (Some ioError, w)
  else match repositories w !! repo_path repo with
       | None => (Some (notFound "repository"), w)
       | Some g => (None, setRepo repo (f g) w)
       end.

(** [git_reference_set_target]: the reference is rewritten only if it
    still has the value of the snapshot. *)
Definition setTarget (r : Reference) (target : Oid) (g : GitRepo) : result GitRepo :=
  if String.eqb (ref_name r) "HEAD" then
    match HEAD g with
    | Detached id =>
        if String.eqb id (Target r) then inl (setHEAD (Detached target) g)
        else inr modified
    | Symbolic _ => inr modified
    end
  else
    match refs g !! ref_name r with
    | Some id =>
        if String.eqb id (Target r) then inl (setRef (ref_name r) target g)
        else inr modified
    | None => inr modified
    end.

(** What a call answers, and the world it leaves.  [mutex.Lock] on a
    locked mutex does not answer; [mutex.Unlock] on an unlocked one is
    a fatal error of the Go runtime. *)
Inductive reply (X : Type) :=
| Reply (x : X) (w : World)
| Blocked
| Fatal (msg : string).
Arguments Reply {X} x w.
Arguments Blocked {X}.
Arguments Fatal {X} msg.

Definition exec {X} (e : Eff X) (w : World) : reply X :=
  match e in Eff X return reply X with
  | log_Println _ => Reply tt w
  | log_Printf _ => Reply tt w
  | mutex_Lock => if locked w then Blocked else Reply tt (setLocked true w)
  | mutex_Unlock =>
      if locked w then Reply tt (setLocked false w)
      else Fatal "sync: unlock of unlocked mutex"
  | os_Stat name =>
      match files w !! name with
      | Some Directory => Reply (inl {| IsDir := true |}) w
      | Some RegularFile => Reply (inl {| IsDir := false |}) w
      | None => Reply (inr (PathError "stat" name)) w
      end
  | git_OpenRepositoryExtended path =>
      Reply (reading _ (git_OpenRepositoryExtended path) {| repo_path := path |} w
               (fun _ => inl {| repo_path := path |})) w
  | LookupRemote repo name =>
      Reply (reading _ (LookupRemote repo name) repo w (fun g =>
               match origin g with
               | Some _ =>
                   if String.eqb name "origin"
                   then inl {| remote_repo := repo; remote_name := name |}
                   else inr (notFound "remote")
               | None => inr (notFound "remote")
               end)) w
  | Fetch remote =>
      let '(err, w') := writing _ (Fetch remote) (remote_repo remote) w (fun g =>
        match origin g with
        | Some (Some id) => setRef "refs/remotes/origin/master" id g
        | _ => g
        end) in
      Reply err w'
  | LookupReference repo name =>
      Reply (reading _ (LookupReference repo name) repo w (fun g =>
               match refs g !! name with
               | Some id => inl {| ref_repo := repo; ref_name := name; Target := id |}
               | None => inr (notFound "reference")
               end)) w
  | AnnotatedCommitFromRef repo r =>
      Reply (reading _ (AnnotatedCommitFromRef repo r) repo w (fun _ =>
               inl {| annotated_id := Target r |})) w
  | Merge repo theirHeads =>
      let '(err, w') := writing _ (Merge repo theirHeads) repo w (fun g =>
        setState StateMerge (setWorktree Mixed g)) in
      Reply err w'
  | LookupCommit repo id =>
      Reply (reading _ (LookupCommit repo id) repo w (fun _ =>
               inl {| commit_repo := repo; commit_id := id |})) w
  | Commit_Tree c =>
      Reply (reading _ (Commit_Tree c) (commit_repo c) w (fun _ =>
               inl {| tree_repo := commit_repo c; tree_commit := commit_id c |})) w
  | CheckoutTree repo t strategy =>
      let '(err, w') := writing _ (CheckoutTree repo t strategy) repo w
                          (setWorktree (TreeOf (tree_commit t))) in
      Reply err w'
  | Head repo =>
      Reply (reading _ (Head repo) repo w (fun g =>
               match HEAD g with
               | Symbolic name =>
                   match refs g !! name with
                   | Some id => inl {| ref_repo := repo; ref_name := name; Target := id |}
                   | None => inr (notFound "reference")
                   end
               | Detached id => inl {| ref_repo := repo; ref_name := "HEAD"; Target := id |}
               end)) w
  | SetTarget r target =>
      match reading _ (SetTarget r target) (ref_repo r) w (setTarget r target) with
      | inl g =>
          Reply (inl {| ref_repo := ref_repo r; ref_name := ref_name r; Target := target |})
                (setRepo (ref_repo r) g w)
      | inr err => Reply (inr err) w
      end
  | StateCleanup repo =>
      let '(err, w') := writing _ (StateCleanup repo) repo w (setState StateNone) in
      Reply err w'
  | http_Error _ _ => Reply tt w
  | WriteHeader _ => Reply tt w
  | Write _ => Reply tt w
  end.

(** One run of a function body, alone in the process: the calls it
    made, how it ended, and the world it left. *)
Inductive event :=
| Called {X : Type} (e : Eff X) (x : X).

Inductive ending :=
| Returned
| Panicked (msg : string)
| Deadlocked
| Aborted (msg : string).

Fixpoint run {A} (p : prog A) (w : World) : list event * ending * World :=
  match p with
  | Done _ => ([], Returned, w)
  | Crash msg => ([], Panicked msg, w)
  | Do e k =>
      match exec e w with
      | Reply x w' =>
          let '(t, r, w'') := run (k x) w' in (Called e x :: t, r, w'')
      | Blocked => ([], Deadlocked, w)
      | Fatal msg => ([], Aborted msg, w)
      end
  end.

(* ===================================================================== *)
(** ** What a trace shows *)

Definition isMutexCall {X} (e : Eff X) : bool :=
  match e with
  | mutex_Lock | mutex_Unlock => true
  | _ => false
  end.

Definition isResponse {X} (e : Eff X) : bool :=
  match e with
  | http_Error _ _ | WriteHeader _ | Write _ => true
  | _ => false
  end.

Definition isLog {X} (e : Eff X) : bool :=
  match e with
  | log_Println _ | log_Printf _ => true
  | _ => false
  end.

(** The calls on the file system and on git2go. *)
Definition isRepositoryCall {X} (e : Eff X) : bool :=
  negb (isMutexCall e || isResponse e || isLog e).

Definition onEvent (f : forall X, Eff X -> bool) (ev : event) : bool :=
  match ev with
  | Called e _ => f _ e
  end.

Definition isLock (ev : event) : bool :=
  match ev with
  | Called mutex_Lock _ => true
  | _ => false
  end.

Definition isUnlock (ev : event) : bool :=
  match ev with
  | Called mutex_Unlock _ => true
  | _ => false
  end.

(** The responses a trace sends, as (status, text).  [http.Error] sets
    the status and sends the text (net/http ends it with a line feed);
    [WriteHeader] followed by [Write] is one response. *)
Fixpoint replies (t : list event) : list (nat * string) :=
  match t with
  | [] => []
  | Called (http_Error text code) _ :: t' => (code, text) :: replies t'
  | Called (WriteHeader code) _ :: t' =>
      match t' with
      | Called (Write body) _ :: t'' => (code, body) :: replies t''
      | _ => (code, "") :: replies t'
      end
  | Called (Write body) _ :: t' => (200, body) :: replies t'
  | _ :: t' => replies t'
  end.

Definition isStat (ev : event) : bool :=
  match ev with
  | Called (os_Stat _) _ => true
  | _ => false
  end.

Definition isSetTarget (ev : event) : bool :=
  match ev with
  | Called (SetTarget _ _) _ => true
  | _ => false
  end.

(** Every response of the trace is written after the mutex has been
    released. *)
Fixpoint releasedBeforeResponse (released : bool) (t : list event) : bool :=
  match t with
  | [] => true
  | ev :: t' =>
      if onEvent (@isResponse) ev
      then released && releasedBeforeResponse released t'
      else releasedBeforeResponse (released || isUnlock ev) t'
  end.

(** A property of every trace a function body can leave when it
    returns or panics, whatever its calls answer. *)
Fixpoint every (Q : list event -> ending -> Prop) (past : list event)
    (p : prog unit) : Prop :=
  match p with
  | Done _ => Q past Returned
  | Crash msg => Q past (Panicked msg)
  | Do e k => forall x, every Q (past ++ [Called e x]) (k x)
  end.

(** The locking discipline.  [h] tells whether the goroutine holds the
    mutex: [mutex.Lock] is called without it, [mutex.Unlock] and the
    repository calls with it, and the function ends without it. *)
Definition after {X} (e : Eff X) (h : bool) : bool :=
  match e with
  | mutex_Lock => true
  | mutex_Unlock => false
  | _ => h
  end.

Definition allowed {X} (e : Eff X) (h : bool) : bool :=
  match e with
  | mutex_Lock => negb h
  | mutex_Unlock => h
  | _ => implb (isRepositoryCall e) h
  end.

Fixpoint bracketed (h : bool) (p : prog unit) : Prop :=
  match p with
  | Done _ => h = false
  | Crash _ => h = false
  | Do e k => allowed e h = true /\ forall x, bracketed (after e h) (k x)
  end.

Fixpoint lockfree (p : prog unit) : Prop :=
  match p with
  | Done _ => True
  | Crash _ => True
  | Do e k => isMutexCall e = false /\ forall x, lockfree (k x)
  end.

(* ===================================================================== *)
(** ** Requests served concurrently *)

(** net/http runs every request in a goroutine of its own.  [holding]
    records whether the goroutine is between its [mutex.Lock] and its
    [mutex.Unlock]. *)
Record goroutine := { code : prog unit; holding : bool }.

Record process := { world : World; pool : list goroutine }.

(** One goroutine makes its next call.  A goroutine whose next call is
    [mutex.Lock] on the locked mutex has no step: it waits. *)
Inductive step : process -> process -> Prop :=
| step_call (P : process) (i : nat) (X : Type) (e : Eff X) (k : X -> prog unit)
    (h : bool) (x : X) (w' : World) :
    pool P !! i = Some {| code := Do e k; holding := h |} ->
    exec e (world P) = Reply x w' ->
    step P {| world := w';
              pool := <[i := {| code := k x; holding := after e h |}]> (pool P) |}.

Definition serve (c : Config) (w : World) (rs : list Request) : process :=
  {| world := w;
     pool := (fun r => {| code := handleWebhook c r; holding := false |}) <$> rs |}.

Definition reachable (c : Config) (w : World) (rs : list Request) (P : process) : Prop :=
  rtc step (serve c w rs) P.

(** At most one goroutine is inside its critical section. *)
Definition mutualExclusion (P : process) : Prop :=
  forall i j gi gj,
    pool P !! i = Some gi -> pool P !! j = Some gj ->
    holding gi = true -> holding gj = true -> i = j.

(** A goroutine about to touch the file system or a repository is
    inside its critical section. *)
Definition repositoryCallsInside (P : process) : Prop :=
  forall i X (e : Eff X) k h,
    pool P !! i = Some {| code := Do e k; holding := h |} ->
    isRepositoryCall e = true -> h = true.

(** The mutex is locked exactly when some goroutine holds it. *)
Definition lockMatchesHolder (P : process) : Prop :=
  locked (world P) = true <->
  exists i g, pool P !! i = Some g /\ holding g = true.

(** Every goroutine keeps the locking discipline. *)
Definition disciplinedPool (P : process) : Prop :=
  forall i g, pool P !! i = Some g -> bracketed (holding g) (code g).

Definition invariant (P : process) : Prop :=
  disciplinedPool P /\ lockMatchesHolder P /\ mutualExclusion P.

(** One request served alone: the calls made, the way the handler
    ended, the world afterwards. *)
Definition callsOf (c : Config) (r : Request) (w : World) : list event :=
  (run (handleWebhook c r) w).1.1.

Definition endingOf (c : Config) (r : Request) (w : World) : ending :=
  (run (handleWebhook c r) w).1.2.

Definition worldAfter (c : Config) (r : Request) (w : World) : World :=
  (run (handleWebhook c r) w).2.

(* ===================================================================== *)
(** ** Shapes of JSON documents *)

Definition stringOrNull (v : json) : bool :=
  match v with
  | JNull | JString _ => true
  | _ => false
  end.

(** A change record: [null], or an object whose [refId] members are
    strings or [null]. *)
Definition recordShape (v : json) : bool :=
  match v with
  | JNull => true
  | JObject ms =>
      forallb (fun m => negb (equalFold "refId" (fst m)) || stringOrNull (snd m)) ms
  | _ => false
  end.

Definition recordsShape (v : json) : bool :=
  match v with
  | JNull => true
  | JArray vs => forallb recordShape vs
  | _ => false
  end.

(** The members of a ref-change-list object: every [refChanges] member
    is [null] or an array of change records. *)
Definition refChangeListShape (ms : list (string * json)) : bool :=
  forallb (fun m => negb (equalFold "refChanges" (fst m)) || recordsShape (snd m)) ms.

(** A change record of the text names [id] as its [refId]. *)
Definition recordNames (id : string) (v : json) : bool :=
  match v with
  | JObject ms =>
      existsb (fun m => equalFold "refId" (fst m) &&
                        match snd m with
                        | JString s => String.eqb s id
                        | _ => false
                        end) ms
  | _ => false
  end.

(** Some [refChanges] array of the object holds such a record. *)
Definition hasRecord (id : string) (ms : list (string * json)) : bool :=
  existsb (fun m => equalFold "refChanges" (fst m) &&
                    match snd m with
                    | JArray vs => existsb (recordNames id) vs
                    | _ => false
                    end) ms.

(** The values of the members of an object whose key matches [name],
    in the order of the text. *)
Definition membersNamed (name : string) (ms : list (string * json)) : list json :=
  snd <$> List.filter (fun m => equalFold name (fst m)) ms.

(** What the text gives as the [refId] of a change record: the string
    of its [refId] member, and the empty string where it has no such
    member or gives [null]. *)
Definition recordId (v : json) : string :=
  match v with
  | JObject ms =>
      match membersNamed "refId" ms with
      | JString s :: _ => s
      | _ => ""
      end
  | _ => ""
  end.

(** The [refId]s of the records the text lists under [refChanges]. *)
Definition recordIds (ms : list (string * json)) : list string :=
  match membersNamed "refChanges" ms with
  | JArray vs :: _ => recordId <$> vs
  | _ => []
  end.

(** No key is written twice: the object has at most one [refChanges]
    member, and each of its records at most one [refId] member. *)
Definition recordOnce (v : json) : bool :=
  match v with
  | JObject ms => Nat.leb (List.length (membersNamed "refId" ms)) 1
  | _ => true
  end.

Definition recordsOnce (v : json) : bool :=
  match v with
  | JArray vs => forallb recordOnce vs
  | _ => true
  end.

Definition keysOnce (ms : list (string * json)) : bool :=
  Nat.leb (List.length (membersNamed "refChanges" ms)) 1 &&
  forallb recordsOnce (membersNamed "refChanges" ms).

(** A [refChanges] member that lists no record. *)
Definition noRecords (v : json) : bool :=
  match v with
  | JNull | JArray [] => true
  | _ => false
  end.

(** Some element of [rs] has [id] as its [RefID]. *)
Definition carries (id : string) (rs : list RefChange) : Prop :=
  exists r, r ∈ rs /\ RefID r = id.

(** No decoder of [services] parses [data]. *)
Definition noDecoderParses (data : payload) : bool :=
  forallb (fun s => match snd (json_Unmarshal data s) with
                    | Some _ => true
                    | None => false
                    end) services.

(** The handler goes on to synchronise: [unmarshalPayload] gave a
    value without error and its [Ref()] is the master branch. *)
Definition accepted (r : Request) : Prop :=
  exists v, unmarshalPayload (Body r) = Ret (v, None) /\
            call_Ref v = Ret "refs/heads/master".

(* ===================================================================== *)
(** ** A hook directory used in the examples *)

Definition cfg : Config := {| HookPath := "/srv/hooks"; Host := "localhost"; Port := 80 |}.

Definition post (path : string) (v : json) : Request :=
  {| Body := Bytes (Doc v); URL_Path := path |}.

(** [{"refChanges":[{"refId":id1},{"refId":id2},...]}] *)
Definition changeList (ids : list string) : json :=
  JObject [("refChanges", JArray ((fun id => JObject [("refId", JString id)]) <$> ids))].

(** [{"refChanges":[{"refId":"refs/heads/master"}]}] *)
Definition masterPush : json :=
  JObject [("refChanges", JArray [JObject [("refId", JString "refs/heads/master")]])].

(** [{"refChanges":[{"refId":"refs/heads/feature-x"}]}] *)
Definition featurePush : json :=
  JObject [("refChanges", JArray [JObject [("refId", JString "refs/heads/feature-x")]])].

(** [{"ref":"refs/heads/master"}] *)
Definition gitlabPush : json := JObject [("ref", JString "refs/heads/master")].

(** [{"refChanges":5}] *)
Definition mistypedPush : json := JObject [("refChanges", JNumber "5")].

(** A push as Bitbucket Server sends it, with members the handler has
    no field for:
    [{"eventKey":"repo:refs_changed",
      "refChanges":[{"refId":"refs/heads/feature-x","type":"UPDATE"},
                    {"ref":{"displayId":"master"},"refId":"refs/heads/master"}]}] *)
Definition mixedPush : list (string * json) :=
  [("eventKey", JString "repo:refs_changed");
   ("refChanges",
    JArray [JObject [("refId", JString "refs/heads/feature-x"); ("type", JString "UPDATE")];
            JObject [("ref", JObject [("displayId", JString "master")]);
                     ("refId", JString "refs/heads/master")]])].

(** [{"refChanges":[{"refId":"refs/heads/master"}],"refChanges":[]}]:
    the key is written twice. *)
Definition overriddenPush : list (string * json) :=
  [("refChanges", JArray [JObject [("refId", JString "refs/heads/master")]]);
   ("refChanges", JArray [])].

(** [{"refChanges":[{"refId":"refs/heads/master","refId":"refs/heads/feature-x"}]}] *)
Definition overriddenRecord : list (string * json) :=
  [("refChanges", JArray [JObject [("refId", JString "refs/heads/master");
                                   ("refId", JString "refs/heads/feature-x")]])].

(** The working copy [demo]: [master] checked out at commit [c0], the
    server's [master] at [c1]. *)
Definition demoRepo : GitRepo :=
  {| refs := {[ "refs/heads/master" := "c0"; "refs/remotes/origin/master" := "c0" ]};
     HEAD := Symbolic "refs/heads/master";
     origin := Some (Some "c1");
     worktree := TreeOf "c0";
     state := StateNone |}.

Definition demoGit : string := "/srv/hooks/demo/.git".

Definition demoWorld : World :=
  {| files := {[ "/srv/hooks/demo" := Directory;
                 "/srv/hooks/demo/.git" := Directory;
                 "/srv/hooks/not-a-repo" := Directory;
                 "/srv/hooks/notes.txt" := RegularFile ]};
     repositories := {[ demoGit := demoRepo ]};
     locked := false;
     failing := fun _ _ => false |}.

(** The same, with [refs/heads/master.lock] left behind by another git
    process: writing the reference fails. *)
Definition staleLock (X : Type) (e : Eff X) : bool :=
  match e with
  | SetTarget r _ => String.eqb (ref_name r) "refs/heads/master"
  | _ => false
  end.

Definition lockedRefWorld : World :=
  {| files := files demoWorld; repositories := repositories demoWorld;
     locked := false; failing := staleLock |}.

(** The snapshot of [refs/heads/master] the handler holds in [demo]. *)
Definition demoMaster : Reference :=
  {| ref_repo := {| repo_path := demoGit |};
     ref_name := "refs/heads/master";
     Target := "c0" |}.

Definition masterOf (w : World) : option Oid :=
  g ← repositories w !! demoGit; refs g !! "refs/heads/master".

Definition trackingOf (w : World) : option Oid :=
  g ← repositories w !! demoGit; refs g !! "refs/remotes/origin/master".

Definition headOf (w : World) : option Oid :=
  g ← repositories w !! demoGit; resolveHEAD g.

(* ===================================================================== *)
(** ** The earlier handler

    The source file also holds the version of [handleWebhook] that goes
    with [unmarshalPayload_v1]: no mutex, and the synchronisation ends
    with the merge. *)

Definition synchronise_v1 (c : Config) (r : Request) (rdir : string) : prog unit :=
  repo <- git_OpenRepositoryExtended rdir ;;
  match repo with
  | inr _ => http500 "could not open git repository"
  | inl repo =>
  remote <- LookupRemote repo "origin" ;;
  match remote with
  | inr _ => http500 "could not lookup remote 'origin'"
  | inl remote =>
  err <- Fetch remote ;;
  match err with
  | Some err => http500 ("could not fetch 'origin': " ++ Error err)
  | None =>
  remoteRef <- LookupReference repo "refs/remotes/origin/master" ;;
  match remoteRef with
  | inr err => http500 ("could not lookup 'refs/remotes/origin/master': " ++ Error err)
  | inl remoteRef =>
  remHead <- AnnotatedCommitFromRef repo remoteRef ;;
  match remHead with
  | inr err => http500 ("could not get commit from ref: " ++ Error err)
  | inl remHead =>
  err <- Merge repo [remHead] ;;
  match err with
  | Some err => http500 ("could not merge origin/master into local repo: " ++ Error err)
  | None =>
  log_Printf ("repository '" ++ Join [HookPath c; URL_Path r] ++ "' updated." ++ nl) ;;;
  WriteHeader 200 ;;;
  Write "ok" ;;;
  Done tt
  end end end end end end.

Definition handleWebhook_v1 (c : Config) (r : Request) : prog unit :=
  let '(ref, err) := unmarshalPayload_v1 (Body r) in
  match err with
  | Some err => http500 ("invalid payload: " ++ Error err)
  | None =>
  match call_Ref ref with
  | Panic msg => Crash msg
  | Ret changed =>
  if negb (String.eqb changed "refs/heads/master") then
    http500 ("ignoring changeset on '" ++ URL_Path r ++ "', not a change on master" ++ nl)
  else
  log_Printf ("updating repository '" ++ Join [HookPath c; URL_Path r] ++ "'" ++ nl) ;;;
  f <- os_Stat (Join [HookPath c; URL_Path r]) ;;
  match f with
  | inr err =>
      log_Printf ("invalid repository '" ++ Join [HookPath c; URL_Path r] ++ "': "
                  ++ Error err ++ nl) ;;;
      http_Error "404" StatusNotFound ;;;
      Done tt
  | inl f =>
  if negb (IsDir f) then
    log_Printf ("not a directory: '" ++ Join [HookPath c; URL_Path r] ++ "'" ++ nl) ;;;
    http_Error "404" StatusNotFound ;;;
    Done tt
  else
  let rdir := Join [HookPath c; URL_Path r; ".git"] in
  f <- os_Stat rdir ;;
  match f with
  | inr _ =>
      log_Println "not a git repository" ;;;
      http_Error "403" StatusForbidden ;;;
      Done tt
  | inl f =>
  if negb (IsDir f) then
    log_Println ".git a file, not a repository" ;;;
    http_Error "403" StatusForbidden ;;;
    Done tt
  else
  synchronise_v1 c r rdir
  end end end end.

(* ===================================================================== *)
(** ** More to read off a trace *)

(** The repository a call works on. *)
Definition handleOf {X} (e : Eff X) : option string :=
  match e with
  | git_OpenRepositoryExtended path => Some path
  | LookupRemote repo _ => Some (repo_path repo)
  | Fetch remote => Some (repo_path (remote_repo remote))
  | LookupReference repo _ => Some (repo_path repo)
  | AnnotatedCommitFromRef repo _ => Some (repo_path repo)
  | Merge repo _ => Some (repo_path repo)
  | LookupCommit repo _ => Some (repo_path repo)
  | Commit_Tree c => Some (repo_path (commit_repo c))
  | CheckoutTree repo _ _ => Some (repo_path repo)
  | Head repo => Some (repo_path repo)
  | SetTarget r _ => Some (repo_path (ref_repo r))
  | StateCleanup repo => Some (repo_path repo)
  | _ => None
  end.

(** The call is on no repository, or on the one at [rdir]. *)
Definition within (rdir : string) (ev : event) : Prop :=
  match ev with
  | Called e _ => handleOf e = None \/ handleOf e = Some rdir
  end.

(** A handle that a call answers with belongs to the repository the
    call was made on. *)
Definition faithful {X} (e : Eff X) : X -> Prop :=
  match e in Eff X return X -> Prop with
  | git_OpenRepositoryExtended path => fun x =>
      match x with inl repo => repo_path repo = path | inr _ => True end
  | LookupRemote repo _ => fun x =>
      match x with inl remote => remote_repo remote = repo | inr _ => True end
  | LookupReference repo _ => fun x =>
      match x with inl r => ref_repo r = repo | inr _ => True end
  | Head repo => fun x =>
      match x with inl r => ref_repo r = repo | inr _ => True end
  | LookupCommit repo _ => fun x =>
      match x with inl c => commit_repo c = repo | inr _ => True end
  | Commit_Tree c => fun x =>
      match x with inl t => tree_repo t = commit_repo c | inr _ => True end
  | _ => fun _ => True
  end.

(** A property of every trace a function body can leave, whatever
    faithful answers its calls get. *)
Fixpoint everyFaithful (Q : list event -> ending -> Prop) (past : list event)
    (p : prog unit) : Prop :=
  match p with
  | Done _ => Q past Returned
  | Crash msg => Q past (Panicked msg)
  | Do e k => forall x, faithful e x -> everyFaithful Q (past ++ [Called e x]) (k x)
  end.

Definition isError {A} (x : result A) : bool :=
  match x with inr _ => true | inl _ => false end.

Definition isFailure (x : option error) : bool :=
  match x with Some _ => true | None => false end.

(** A call whose answer the handler tests, and which answered with an
    error (or, for [os.Stat], with something that is no directory). *)
Definition failedCheck (ev : event) : bool :=
  match ev with
  | Called e x =>
      match e in Eff X return X -> bool with
      | os_Stat _ => fun x =>
          match x with inl f => negb (IsDir f) | inr _ => true end
      | git_OpenRepositoryExtended _ => isError
      | LookupRemote _ _ => isError
      | Fetch _ => isFailure
      | LookupReference _ _ => isError
      | AnnotatedCommitFromRef _ _ => isError
      | Merge _ _ => isFailure
      | LookupCommit _ _ => isError
      | Commit_Tree _ => isError
      | CheckoutTree _ _ _ => isFailure
      | Head _ => isError
      | _ => fun _ => false
      end x
  end.

(** What is left of a run after a failed check: no call on the file
    system or on git, and one response, which is not 200. *)
Definition abandoned (t : list event) : bool :=
  negb (existsb (onEvent (@isRepositoryCall)) t) &&
  match replies t with
  | [(code, _)] => negb (Nat.eqb code 200)
  | _ => false
  end.

Fixpoint stopsAtFirstFailure (t : list event) : bool :=
  match t with
  | [] => true
  | ev :: t' => if failedCheck ev then abandoned t' else stopsAtFirstFailure t'
  end.

Definition isCheckoutTree (ev : event) : bool :=
  match ev with
  | Called (CheckoutTree _ _ _) _ => true
  | _ => false
  end.

(** Requests served one after the other. *)
Definition serveAll (c : Config) (rs : list Request) (w : World) : World :=
  fold_left (fun w r => worldAfter c r w) rs w.

(** A goroutine that has returned or panicked. *)
Definition finished (g : goroutine) : Prop :=
  match code g with
  | Done _ | Crash _ => True
  | Do _ _ => False
  end.

(* ===================================================================== *)
(** ** Members the decoders do not look at *)

Definition stripRecord (v : json) : json :=
  match v with
  | JObject ms =>
      JObject ((fun m => ("refId", snd m))
                 <$> List.filter (fun m => equalFold "refId" (fst m)) ms)
  | _ => v
  end.

Definition stripRecords (v : json) : json :=
  match v with
  | JArray vs => JArray (stripRecord <$> vs)
  | _ => v
  end.

(** The members the first decoder stores, under the names of the
    struct tags: of the object its [refChanges] members, and of their
    records the [refId] members. *)
Definition stripMembers (ms : list (string * json)) : list (string * json) :=
  (fun m => ("refChanges", stripRecords (snd m)))
    <$> List.filter (fun m => equalFold "refChanges" (fst m)) ms.

(** What every trace of the handler shows: a failed check ends the
    run with one failure response and no further call on the file
    system or git; with the mutex taken and no failed check the
    response is 200; [SetTarget] is reached only on the way to 200;
    and every git call is on the repository at [rdir]. *)
Definition handlerTrace (rdir : string) (t : list event) (e : ending) : Prop :=
  stopsAtFirstFailure t = true /\
  (existsb failedCheck t = false -> existsb isLock t = true ->
   replies t = [(200, "ok")]) /\
  (existsb failedCheck t = true -> replies t <> [(200, "ok")]) /\
  (existsb isSetTarget t = true -> replies t = [(200, "ok")]) /\
  Forall (within rdir) t.

(** The log line of a body that could not be read. *)
Definition isInvalidPayload (ev : event) : bool :=
  match ev with
  | Called (log_Println msg) _ => String.prefix "invalid payload: " msg
  | _ => false
  end.

(* ===================================================================== *)
(** ** A working copy whose checkout fails *)

(** The working copy [demo] where the checkout fails (a file of the
    work tree cannot be written). *)
Definition checkoutFails (X : Type) (e : Eff X) : bool :=
  match e with
  | CheckoutTree _ _ _ => true
  | _ => false
  end.

Definition checkoutFailsWorld : World :=
  {| files := files demoWorld; repositories := repositories demoWorld;
     locked := false; failing := checkoutFails |}.

(* ===================================================================== *)
(** * Properties *)

(** ** The decoders *)

#[local] Arguments equalFold : simpl never.

Section Decoding.

Implicit Types (saved : option error) (v : json) (ms : list (string * json)).

Lemma saveError_Some saved e : saveError saved e <> None.
Proof. destruct saved; discriminate. Qed.

Lemma decodeString_clean v cur saved :
  snd (decodeString v cur saved) = None <-> saved = None /\ stringOrNull v = true.
Proof.
  destruct v; simpl; split; intros H; try tauto;
    try (exfalso; revert H; apply saveError_Some);
    destruct H; discriminate.
Qed.

Lemma decodeRefChangeMembers_clean ms cur saved :
  snd (decodeRefChangeMembers ms cur saved) = None <->
  saved = None /\ recordShape (JObject ms) = true.
Proof.
  revert cur saved. induction ms as [|[k v] ms IH]; intros cur saved; simpl.
  - tauto.
  - destruct (equalFold "refId" k); simpl.
    + destruct (decodeString v (RefID cur) saved) as [s saved'] eqn:E.
      rewrite IH. simpl.
      pose proof (decodeString_clean v (RefID cur) saved) as D.
      rewrite E in D. simpl in D. rewrite D, andb_true_iff. tauto.
    + rewrite IH. simpl. tauto.
Qed.

Lemma decodeRefChange_clean v cur saved :
  snd (decodeRefChange v cur saved) = None <-> saved = None /\ recordShape v = true.
Proof.
  destruct v; try apply decodeRefChangeMembers_clean; simpl; split; intros H;
    try tauto; try (exfalso; revert H; apply saveError_Some);
    destruct H; discriminate.
Qed.

Lemma decodeElems_clean (vs : list json) backing saved :
  snd (decodeElems vs backing saved) = None <->
  saved = None /\ forallb recordShape vs = true.
Proof.
  revert backing saved. induction vs as [|v vs IH]; intros backing saved; simpl.
  - tauto.
  - destruct backing as [|x xs].
    + destruct (decodeRefChange v zeroRefChange saved) as [r saved'] eqn:E.
      destruct (decodeElems vs [] saved') as [[rs rest] saved''] eqn:E'.
      pose proof (IH [] saved') as I. rewrite E' in I.
      pose proof (decodeRefChange_clean v zeroRefChange saved) as D.
      rewrite E in D. simpl in *. rewrite I, D, andb_true_iff. tauto.
    + destruct (decodeRefChange v x saved) as [r saved'] eqn:E.
      destruct (decodeElems vs xs saved') as [[rs rest] saved''] eqn:E'.
      pose proof (IH xs saved') as I. rewrite E' in I.
      pose proof (decodeRefChange_clean v x saved) as D.
      rewrite E in D. simpl in *. rewrite I, D, andb_true_iff. tauto.
Qed.

Lemma decodeSlice_clean v cur saved :
  snd (decodeSlice v cur saved) = None <-> saved = None /\ recordsShape v = true.
Proof.
  destruct v as [| | | |vs|]; simpl; try tauto;
    try (split; intros H; [exfalso; revert H; apply saveError_Some
                          | destruct H; discriminate]).
  destruct vs as [|v vs]; [simpl; tauto|].
  pose proof (decodeElems_clean (v :: vs) (elems cur ++ spare cur) saved) as D.
  destruct (decodeElems (v :: vs) (elems cur ++ spare cur) saved) as [[rs rest] saved'].
  exact D.
Qed.

(** The first decoder reports no type mismatch exactly on the objects
    of ref-change-list shape. *)
Lemma decodeBitbucketMembers_clean ms cur saved :
  snd (decodeBitbucketMembers ms cur saved) = None <->
  saved = None /\ refChangeListShape ms = true.
Proof.
  revert cur saved. induction ms as [|[k v] ms IH]; intros cur saved; simpl.
  - tauto.
  - destruct (equalFold "refChanges" k); simpl.
    + destruct (decodeSlice v (RefChanges cur) saved) as [sl saved'] eqn:E.
      rewrite IH.
      pose proof (decodeSlice_clean v (RefChanges cur) saved) as D.
      rewrite E in D. simpl in D. rewrite D, andb_true_iff. tauto.
    + rewrite IH. tauto.
Qed.

End Decoding.

(** ** Where a decoded [refId] comes from *)

Section Provenance.

Variable id : string.
Hypothesis id_not_empty : id <> "".

#[local] Abbreviation carries := (carries id).

Lemma carries_nil : ~ carries [].
Proof. intros (r & H & _). by apply elem_of_nil in H. Qed.

Lemma carries_cons r rs : carries (r :: rs) <-> RefID r = id \/ carries rs.
Proof.
  unfold carries. split.
  - intros (x & H & E). apply elem_of_cons in H as [->|H]; eauto.
  - intros [E|(x & H & E)]; [exists r | exists x]; split; auto; constructor; auto.
Qed.

Lemma decodeString_source v cur saved :
  fst (decodeString v cur saved) = id ->
  cur = id \/ v = JString id.
Proof. destruct v; simpl; intros; subst; auto. Qed.

Lemma decodeRefChangeMembers_source ms cur saved :
  RefID (fst (decodeRefChangeMembers ms cur saved)) = id ->
  RefID cur = id \/ recordNames id (JObject ms) = true.
Proof.
  revert cur saved. induction ms as [|[k v] ms IH]; intros cur saved; simpl.
  - auto.
  - destruct (equalFold "refId" k) eqn:K; simpl.
    + destruct (decodeString v (RefID cur) saved) as [s saved'] eqn:E.
      intros H. apply IH in H as [H|H]; simpl in *.
      * pose proof (decodeString_source v (RefID cur) saved) as D.
        rewrite E in D. destruct (D H) as [?| ->]; auto.
        right. rewrite String.eqb_refl. reflexivity.
      * right. rewrite H. apply orb_true_r.
    + intros H. apply IH in H as [H|H]; auto.
Qed.

Lemma decodeRefChange_source v cur saved :
  RefID (fst (decodeRefChange v cur saved)) = id ->
  RefID cur = id \/ recordNames id v = true.
Proof.
  destruct v; simpl; auto. apply decodeRefChangeMembers_source.
Qed.

Lemma decodeElems_source (vs : list json) backing saved :
  let '(rs, rest, _) := decodeElems vs backing saved in
  carries (rs ++ rest) -> carries backing \/ existsb (recordNames id) vs = true.
Proof.
  revert backing saved. induction vs as [|v vs IH]; intros backing saved; simpl.
  - auto.
  - destruct backing as [|x xs].
    + destruct (decodeRefChange v zeroRefChange saved) as [r saved'] eqn:E.
      specialize (IH [] saved').
      destruct (decodeElems vs [] saved') as [[rs rest] saved''].
      simpl. rewrite carries_cons. intros [H|H].
      * pose proof (decodeRefChange_source v zeroRefChange saved) as D.
        rewrite E in D. destruct (D H) as [Z|N].
        -- simpl in Z. congruence.
        -- right. rewrite N. reflexivity.
      * destruct (IH H) as [C|N]; auto. right. rewrite N. apply orb_true_r.
    + destruct (decodeRefChange v x saved) as [r saved'] eqn:E.
      specialize (IH xs saved').
      destruct (decodeElems vs xs saved') as [[rs rest] saved''].
      simpl. rewrite !carries_cons. intros [H|H].
      * pose proof (decodeRefChange_source v x saved) as D.
        rewrite E in D. destruct (D H) as [Z|N]; auto.
        right. rewrite N. reflexivity.
      * destruct (IH H) as [C|N]; auto. right. rewrite N. apply orb_true_r.
Qed.

Lemma decodeSlice_source v cur saved :
  let sl := fst (decodeSlice v cur saved) in
  carries (elems sl ++ spare sl) ->
  carries (elems cur ++ spare cur) \/
  match v with
  | JArray vs => existsb (recordNames id) vs
  | _ => false
  end = true.
Proof.
  destruct v as [| | | |vs|]; simpl; auto;
    try (intros H; by apply carries_nil in H).
  destruct vs as [|v vs]; [intros H; by apply carries_nil in H|].
  pose proof (decodeElems_source (v :: vs) (elems cur ++ spare cur) saved) as D.
  destruct (decodeElems (v :: vs) (elems cur ++ spare cur) saved) as [[rs rest] saved'].
  exact D.
Qed.

Lemma decodeBitbucketMembers_source ms cur saved :
  let b := fst (decodeBitbucketMembers ms cur saved) in
  carries (elems (RefChanges b) ++ spare (RefChanges b)) ->
  carries (elems (RefChanges cur) ++ spare (RefChanges cur)) \/
  hasRecord id ms = true.
Proof.
  revert cur saved. induction ms as [|[k v] ms IH]; intros cur saved; simpl.
  - auto.
  - destruct (equalFold "refChanges" k) eqn:K; simpl.
    + destruct (decodeSlice v (RefChanges cur) saved) as [sl saved'] eqn:E.
      intros H. apply IH in H as [H|H]; simpl in *.
      * pose proof (decodeSlice_source v (RefChanges cur) saved) as D.
        rewrite E in D. destruct (D H) as [?|N]; auto.
        right. rewrite N. reflexivity.
      * right. rewrite H. apply orb_true_r.
    + intros H. apply IH in H as [H|H]; auto.
Qed.

End Provenance.

(** ** [Ref()] of the two shapes *)

Lemma Bitbucket_Ref_loop_values rs :
  Bitbucket_Ref_loop rs = "refs/heads/master" \/ Bitbucket_Ref_loop rs = "not master".
Proof.
  induction rs as [|r rs IH]; simpl; auto.
  destruct (String.eqb (RefID r) "refs/heads/master"); auto.
Qed.

Lemma Bitbucket_Ref_loop_master rs :
  Bitbucket_Ref_loop rs = "refs/heads/master" <->
  exists r, r ∈ rs /\ RefID r = "refs/heads/master".
Proof.
  induction rs as [|r rs IH]; simpl.
  - split; [discriminate|]. intros (r & H & _). by apply elem_of_nil in H.
  - destruct (String.eqb (RefID r) "refs/heads/master") eqn:E.
    + apply String.eqb_eq in E. split; auto.
      intros _. exists r. split; [constructor|assumption].
    + apply String.eqb_neq in E. rewrite IH. split.
      * intros (x & H & Hx). exists x. split; [by constructor|assumption].
      * intros (x & H & Hx). apply elem_of_cons in H as [->|H]; [contradiction|eauto].
Qed.

(** The loop of [unmarshalPayload] on a JSON object. *)
Lemma unmarshalPayload_object ms :
  unmarshalPayload (Bytes (Doc (JObject ms))) =
  match decodeBitbucketMembers ms zeroBitbucket None with
  | (b, None) => Ret (Some (Bitbucket b), None)
  | (_, Some _) => Ret (Some (GitLab zeroGitLab), None)
  end.
Proof.
  simpl. destruct (decodeBitbucketMembers ms zeroBitbucket None) as [b [e|]]; reflexivity.
Qed.

(** A body the handler accepts is an object holding a master record. *)
Lemma accepted_hasRecord r :
  accepted r ->
  exists ms, Body r = Bytes (Doc (JObject ms)) /\
             refChangeListShape ms = true /\
             hasRecord "refs/heads/master" ms = true.
Proof.
  intros (v & U & R). destruct r as [[e|[why|d]] path]; simpl in *.
  { discriminate. }
  { injection U as <-. discriminate. }
  destruct d as [| | | | |ms]; simpl in U;
    try (injection U as <-; discriminate); try discriminate.
  exists ms. split; [reflexivity|].
  pose proof (decodeBitbucketMembers_clean ms zeroBitbucket None) as C.
  assert (N : "refs/heads/master" <> "") by discriminate.
  pose proof (decodeBitbucketMembers_source "refs/heads/master" N ms zeroBitbucket None) as S.
  destruct (decodeBitbucketMembers ms zeroBitbucket None) as [b [e|]]; simpl in *.
  - injection U as <-. discriminate.
  - injection U as <-. simpl in R. injection R as R.
    split; [by apply C|].
    apply Bitbucket_Ref_loop_master in R as (x & Hx & Ex).
    destruct S as [S|S]; auto.
    + exists x. split; [apply elem_of_app; auto|assumption].
    + destruct S as (y & Hy & _). by apply elem_of_nil in Hy.
Qed.

(** ** Running a function body *)

(** A call that is not on the mutex always answers and leaves the
    mutex and the files as they are. *)
Lemma writing_frame X (e : Eff X) repo w f :
  locked (snd (writing X e repo w f)) = locked w /\
  files (snd (writing X e repo w f)) = files w.
Proof.
  unfold writing. destruct (failing w X e); [auto|].
  destruct (repositories w !! repo_path repo); auto.
Qed.

Lemma exec_answers {X} (e : Eff X) (w : World) :
  isMutexCall e = false ->
  exists x w', exec e w = Reply x w' /\ locked w' = locked w /\ files w' = files w.
Proof.
  destruct e; simpl; try discriminate; intros _; eauto;
    try match goal with
        | |- context [writing ?X ?e ?repo ?w ?f] =>
            pose proof (writing_frame X e repo w f);
            destruct (writing X e repo w f); simpl in *; eauto
        end.
  - destruct (files w !! name) as [[]|]; eauto.
  - destruct (reading _ _ _ _ _); simpl; eauto.
Qed.

Lemma run_every (Q : list event -> ending -> Prop) (p : prog unit) :
  forall past w,
    every Q past p ->
    let '(t, e, _) := run p w in
    (e = Returned \/ exists msg, e = Panicked msg) -> Q (past ++ t) e.
Proof.
  induction p as [a|msg|X e k IH]; intros past w H; simpl in *.
  - intros _. by rewrite app_nil_r.
  - intros _. by rewrite app_nil_r.
  - destruct (exec e w) as [x w'| |msg] eqn:E.
    + specialize (IH x (past ++ [Called e x]) w' (H x)).
      destruct (run (k x) w') as [[t r] w''].
      intros R. rewrite <- app_assoc in IH. by apply IH.
    + intros [?|[? ?]]; discriminate.
    + intros [?|[? ?]]; discriminate.
Qed.

Lemma lockfree_run (p : prog unit) :
  forall w, lockfree p ->
    let '(_, e, w') := run p w in
    (e = Returned \/ exists msg, e = Panicked msg) /\
    locked w' = locked w /\ files w' = files w.
Proof.
  induction p as [a|msg|X e k IH]; intros w H; simpl in *; eauto.
  destruct H as [M H].
  destruct (exec_answers e w M) as (x & w' & -> & L & F).
  specialize (IH x w' (H x)).
  destruct (run (k x) w') as [[t r] w'']. rewrite <- L, <- F. exact IH.
Qed.

(** [defer mutex.Unlock()]: the body runs, then the mutex is released,
    however the body ends. *)
Lemma run_defer (body : prog unit) :
  forall w, lockfree body -> locked w = true ->
    run (defer mutex_Unlock body) w =
    let '(t, e, w') := run body w in
    ((t ++ [Called mutex_Unlock tt]), e, setLocked false w').
Proof.
  induction body as [a|msg|X e k IH]; intros w H L; simpl in *.
  - by rewrite L.
  - by rewrite L.
  - destruct H as [M H].
    destruct (exec_answers e w M) as (x & w' & -> & L' & _).
    rewrite (IH x w' (H x)) by congruence.
    by destruct (run (k x) w') as [[t r] w''].
Qed.

(** Case analysis on every answer of a straight-line function body. *)
Ltac lockfree_walk :=
  repeat (cbn beta zeta iota delta [lockfree];
          match goal with
          | |- True => exact I
          | |- _ /\ _ => split; [reflexivity | intros ?]
          | |- lockfree (match ?d with _ => _ end) => destruct d
          end).

Lemma lockfree_synchronise c r rdir : lockfree (synchronise c r rdir).
Proof. unfold synchronise, http500. lockfree_walk. Qed.

Lemma lockfree_criticalSection c r : lockfree (criticalSection c r).
Proof.
  unfold criticalSection. lockfree_walk. apply lockfree_synchronise.
Qed.

Lemma lockfree_bracketed (p : prog unit) :
  lockfree p -> bracketed true (defer mutex_Unlock p).
Proof.
  induction p as [a|msg|X e k IH]; simpl; auto.
  intros [M H]. split; [|intros x; destruct e; try discriminate; simpl; auto].
  destruct e; try discriminate; reflexivity.
Qed.

(** [handleWebhook] keeps the locking discipline. *)
Lemma handleWebhook_bracketed c r : bracketed false (handleWebhook c r).
Proof.
  unfold handleWebhook, http500.
  destruct (unmarshalPayload (Body r)) as [[v [e|]]|msg]; [ | |reflexivity].
  - repeat (split; [reflexivity|intros _]). reflexivity.
  - destruct (call_Ref v) as [changed|msg]; [|reflexivity].
    destruct (negb _).
    + repeat (split; [reflexivity|intros _]). reflexivity.
    + split; [reflexivity|]. intros _. split; [reflexivity|]. intros _.
      apply lockfree_bracketed, lockfree_criticalSection.
Qed.

(** The shape of a run that gets past the master filter. *)
Lemma run_accepted c r w :
  accepted r -> locked w = false ->
  run (handleWebhook c r) w =
  let '(t, e, w') := run (criticalSection c r) (setLocked true w) in
  (Called (log_Printf ("updating repository '" ++ Join [HookPath c; URL_Path r]
                       ++ "'" ++ nl)) tt
     :: Called mutex_Lock tt :: (t ++ [Called mutex_Unlock tt]),
   e, setLocked false w').
Proof.
  intros (v & U & R) L. unfold handleWebhook. rewrite U, R. cbv beta iota.
  change (negb (String.eqb "refs/heads/master" "refs/heads/master")) with false.
  cbv beta iota. cbn [run exec]. rewrite L.
  rewrite run_defer by (apply lockfree_criticalSection || reflexivity).
  by destruct (run (criticalSection c r) (setLocked true w)) as [[t e] w'].
Qed.

(** ** Goroutines under the mutex *)

(** What a call that answers does to the mutex and to the caller. *)
Lemma exec_mutex {X} (e : Eff X) (h : bool) w x w' :
  exec e w = Reply x w' -> allowed e h = true ->
  (after e h = h /\ locked w' = locked w) \/
  (h = false /\ after e h = true /\ locked w = false /\ locked w' = true) \/
  (h = true /\ after e h = false /\ locked w = true /\ locked w' = false).
Proof.
  intros E A.
  destruct (isMutexCall e) eqn:M.
  - destruct e; try discriminate; simpl in *.
    + destruct (locked w) eqn:L; [discriminate|]. injection E as _ <-.
      right; left. destruct h; [discriminate|]. auto.
    + destruct (locked w) eqn:L; [|discriminate]. injection E as _ <-.
      right; right. auto.
  - left. destruct (exec_answers e w M) as (x0 & w0 & E0 & L & _).
    rewrite E in E0. injection E0 as _ ->. split; [|assumption].
    destruct e; try discriminate; reflexivity.
Qed.

Lemma invariant_serve c w rs : locked w = false -> invariant (serve c w rs).
Proof.
  intros L.
  unfold serve, invariant, disciplinedPool, lockMatchesHolder, mutualExclusion.
  cbn [pool world]. repeat split.
  - intros i g H. rewrite list_lookup_fmap in H.
    destruct (rs !! i) as [r|]; [|discriminate]. injection H as <-.
    apply handleWebhook_bracketed.
  - rewrite L. discriminate.
  - intros (i & g & H & Hg). rewrite list_lookup_fmap in H.
    destruct (rs !! i) as [r|]; [|discriminate]. injection H as <-. discriminate.
  - intros i j gi gj Hi _ Hh _. rewrite list_lookup_fmap in Hi.
    destruct (rs !! i) as [r|]; [|discriminate]. injection Hi as <-. discriminate.
Qed.

Lemma invariant_step P P' : invariant P -> step P P' -> invariant P'.
Proof.
  intros (D & LH & ME) S. destruct S as [P i X e k h x w' Hi E].
  pose proof (D i _ Hi) as [A B]. simpl in A, B.
  assert (Hlen : i < List.length (pool P)) by (eapply lookup_lt_Some; eauto).
  assert (Hold : forall j g, j <> i ->
            <[i := {| code := k x; holding := after e h |}]> (pool P) !! j = Some g ->
            pool P !! j = Some g).
  { intros j g N H. by rewrite list_lookup_insert_ne in H. }
  unfold invariant, disciplinedPool, lockMatchesHolder, mutualExclusion.
  cbn [pool world]. repeat split.
  - intros j g H. destruct (decide (j = i)) as [->|N].
    + rewrite list_lookup_insert_eq in H by assumption. injection H as <-. apply B.
    + apply D with j. by apply Hold.
  - intros L. destruct (exec_mutex e h _ _ _ E A)
      as [[Ha Hl]|[(Hh & Ha & Hl & Hl')|(Hh & Ha & Hl & Hl')]].
    + rewrite Hl in L. apply LH in L as (j & g & Hj & Hg).
      destruct (decide (j = i)) as [->|N].
      * exists i, {| code := k x; holding := after e h |}.
        rewrite list_lookup_insert_eq by assumption. split; [reflexivity|].
        simpl. rewrite Ha. rewrite Hi in Hj. by injection Hj as <-.
      * exists j, g. by rewrite list_lookup_insert_ne.
    + exists i, {| code := k x; holding := after e h |}.
      rewrite list_lookup_insert_eq by assumption. auto.
    + congruence.
  - intros (j & g & Hj & Hg). destruct (exec_mutex e h _ _ _ E A)
      as [[Ha Hl]|[(Hh & Ha & Hl & Hl')|(Hh & Ha & Hl & Hl')]].
    + rewrite Hl. apply LH. destruct (decide (j = i)) as [->|N].
      * rewrite list_lookup_insert_eq in Hj by assumption. injection Hj as <-.
        simpl in Hg. exists i, {| code := Do e k; holding := h |}.
        split; [assumption|]. simpl. congruence.
      * exists j, g. split; [by apply Hold|assumption].
    + assumption.
    + exfalso. destruct (decide (j = i)) as [->|N].
      * rewrite list_lookup_insert_eq in Hj by assumption. injection Hj as <-.
        simpl in Hg. congruence.
      * apply Hold in Hj; [|assumption].
        apply N. eapply ME; eauto.
  - intros j1 j2 g1 g2 H1 H2 Hg1 Hg2.
    destruct (exec_mutex e h _ _ _ E A)
      as [[Ha Hl]|[(Hh & Ha & Hl & Hl')|(Hh & Ha & Hl & Hl')]].
    + assert (Holder : forall j g,
                <[i := {| code := k x; holding := after e h |}]> (pool P) !! j = Some g ->
                holding g = true ->
                exists g0, pool P !! j = Some g0 /\ holding g0 = true).
      { intros j g Hj Hg. destruct (decide (j = i)) as [->|N].
        - rewrite list_lookup_insert_eq in Hj by assumption. injection Hj as <-.
          simpl in Hg. eexists. split; [exact Hi|]. simpl. congruence.
        - exists g. split; [by apply Hold|assumption]. }
      destruct (Holder _ _ H1 Hg1) as (g1' & ? & ?).
      destruct (Holder _ _ H2 Hg2) as (g2' & ? & ?).
      eapply ME; eauto.
    + assert (Free : forall j g, j <> i ->
                <[i := {| code := k x; holding := after e h |}]> (pool P) !! j = Some g ->
                holding g = true -> False).
      { intros j g N Hj Hg. apply Hold in Hj; [|assumption].
        assert (locked (world P) = true) by (apply LH; eauto). congruence. }
      destruct (decide (j1 = i)) as [->|N1]; destruct (decide (j2 = i)) as [->|N2];
        auto; exfalso; eauto.
    + assert (Free : forall j g,
                <[i := {| code := k x; holding := after e h |}]> (pool P) !! j = Some g ->
                holding g = true -> False).
      { intros j g Hj Hg. destruct (decide (j = i)) as [->|N].
        - rewrite list_lookup_insert_eq in Hj by assumption. injection Hj as <-.
          simpl in Hg. congruence.
        - apply Hold in Hj; [|assumption]. apply N. eapply ME; eauto. }
      exfalso; eauto.
Qed.

Lemma invariant_reachable c w rs P :
  locked w = false -> reachable c w rs P -> invariant P.
Proof.
  intros L R. unfold reachable in R.
  eapply (rtc_ind_r (fun Q => invariant Q)); [ | |exact R].
  - by apply invariant_serve.
  - intros y z _ S I. eapply invariant_step; eauto.
Qed.

Lemma disciplined_inside P : disciplinedPool P -> repositoryCallsInside P.
Proof.
  intros D i X e k h Hi R. destruct (D i _ Hi) as [A _]. simpl in A.
  destruct h; [reflexivity|].
  destruct e; try discriminate; simpl in *; discriminate.
Qed.

(** Whether a request is accepted can be computed. *)
Lemma classic_accepted r : accepted r \/ ~ accepted r.
Proof.
  unfold accepted.
  destruct (unmarshalPayload (Body r)) as [[v [e|]]|msg].
  - right. intros (v' & U & _). discriminate.
  - destruct (call_Ref v) as [changed|msg] eqn:R.
    + destruct (String.eqb changed "refs/heads/master") eqn:E.
      * apply String.eqb_eq in E. subst. left. eauto.
      * apply String.eqb_neq in E. right. intros (v' & U & R').
        injection U as <-. congruence.
    + right. intros (v' & U & R'). injection U as <-. congruence.
  - right. intros (v' & U & _). discriminate.
Qed.

(** A request that is not accepted ends before the mutex: the handler
    panics at once, or logs and answers 500. *)
Lemma run_rejected c r w :
  ~ accepted r ->
  (exists msg, run (handleWebhook c r) w = ([], Panicked msg, w)) \/
  (exists msg, run (handleWebhook c r) w =
     ([Called (log_Println msg) tt; Called (http_Error "500" StatusInternalServerError) tt],
      Returned, w)).
Proof.
  intros N. unfold handleWebhook.
  destruct (unmarshalPayload (Body r)) as [[v [e|]]|msg] eqn:U; [right|..|left]; eauto.
  destruct (call_Ref v) as [changed|msg] eqn:R; [|left; eauto].
  destruct (String.eqb changed "refs/heads/master") eqn:E.
  - apply String.eqb_eq in E. subst. exfalso. apply N. exists v. auto.
  - right. simpl. eauto.
Qed.

(* ===================================================================== *)
(** * The payload normalizer *)

Lemma decodeElems_changeList ids saved :
  decodeElems ((fun id => JObject [("refId", JString id)]) <$> ids) [] saved =
  ((fun id => {| RefID := id |}) <$> ids, [], saved).
Proof.
  induction ids as [|id ids IH]; [reflexivity|].
  cbn [fmap list_fmap decodeElems decodeRefChange decodeRefChangeMembers].
  change (equalFold "refId" "refId") with true. cbn [decodeString].
  fold (list_fmap string json (fun id => JObject [("refId", JString id)]) ids).
  fold (fmap (M := list) (fun id => JObject [("refId", JString id)]) ids).
  rewrite IH. reflexivity.
Qed.

(** A list of change records is decoded as it is written. *)
Lemma unmarshalPayload_changeList ids :
  unmarshalPayload (Bytes (Doc (changeList ids))) =
  Ret (Some (Bitbucket {| RefChanges :=
         {| elems := (fun id => {| RefID := id |}) <$> ids; spare := [] |} |}), None).
Proof.
  unfold changeList. rewrite unmarshalPayload_object.
  cbn [decodeBitbucketMembers]. change (equalFold "refChanges" "refChanges") with true.
  cbv iota. destruct ids as [|id ids]; [reflexivity|].
  unfold decodeSlice.
  change ((fun id0 => JObject [("refId", JString id0)]) <$> id :: ids)
    with (JObject [("refId", JString id)]
            :: ((fun id0 => JObject [("refId", JString id0)]) <$> ids)).
  cbv iota.
  change (JObject [("refId", JString id)]
            :: ((fun id0 => JObject [("refId", JString id0)]) <$> ids))
    with ((fun id0 => JObject [("refId", JString id0)]) <$> id :: ids).
  cbn [RefChanges zeroBitbucket nilSlice elems spare app].
  rewrite decodeElems_changeList. reflexivity.
Qed.

(** ** Payloads that write no key twice *)

Lemma membersNamed_cons name k v ms :
  membersNamed name ((k, v) :: ms) =
  if equalFold name k then v :: membersNamed name ms else membersNamed name ms.
Proof. unfold membersNamed. simpl. by destruct (equalFold name k). Qed.

Lemma existsb_membersNamed name (g : json -> bool) ms :
  existsb (fun m => equalFold name (fst m) && g (snd m)) ms
  = existsb g (membersNamed name ms).
Proof.
  induction ms as [|[k v] ms IH]; [reflexivity|].
  rewrite membersNamed_cons. simpl. rewrite IH. by destruct (equalFold name k).
Qed.

Lemma decodeRefChangeMembers_once ms :
  forall cur saved,
    Nat.leb (List.length (membersNamed "refId" ms)) 1 = true ->
    fst (decodeRefChangeMembers ms cur saved) =
    match membersNamed "refId" ms with
    | JString s :: _ => {| RefID := s |}
    | _ => cur
    end.
Proof.
  induction ms as [|[k x] rest IH]; intros cur saved H; [reflexivity|].
  rewrite membersNamed_cons in *. cbn [decodeRefChangeMembers].
  destruct (equalFold "refId" k); [|by apply IH].
  destruct (membersNamed "refId" rest) as [|y l] eqn:E; [|discriminate].
  destruct (decodeString x (RefID cur) saved) as [s saved'] eqn:D.
  rewrite IH by (rewrite ?E; reflexivity). rewrite ?E.
  destruct x; simpl in D; injection D as <- _; try reflexivity; by destruct cur.
Qed.

Lemma decodeRefChange_once v saved :
  recordOnce v = true ->
  RefID (fst (decodeRefChange v zeroRefChange saved)) = recordId v.
Proof.
  intros H. destruct v as [| | | | |ms]; try reflexivity.
  cbn [decodeRefChange recordId]. rewrite decodeRefChangeMembers_once by exact H.
  by destruct (membersNamed "refId" ms) as [|[] ?].
Qed.

Lemma decodeElems_once vs :
  forall saved,
    forallb recordOnce vs = true ->
    RefID <$> (decodeElems vs [] saved).1.1 = recordId <$> vs.
Proof.
  induction vs as [|v vs IH]; intros saved H; [reflexivity|].
  apply andb_true_iff in H as [Hv H]. cbn [decodeElems].
  pose proof (decodeRefChange_once v saved Hv) as R.
  destruct (decodeRefChange v zeroRefChange saved) as [r saved'].
  specialize (IH saved' H).
  destruct (decodeElems vs [] saved') as [[rs rest] saved''].
  cbn [fst snd] in *. rewrite !fmap_cons. by rewrite R, IH.
Qed.

Lemma decodeSlice_once v saved :
  recordsOnce v = true ->
  RefID <$> elems (fst (decodeSlice v nilSlice saved)) =
  match v with
  | JArray vs => recordId <$> vs
  | _ => []
  end.
Proof.
  intros H. destruct v as [| | | |vs|]; try reflexivity.
  destruct vs as [|v vs]; [reflexivity|].
  pose proof (decodeElems_once (v :: vs) saved H) as E.
  unfold decodeSlice. cbn [elems spare nilSlice app].
  by destruct (decodeElems (v :: vs) [] saved) as [[rs rest] saved'].
Qed.

Lemma decodeBitbucketMembers_skip ms :
  forall cur saved,
    membersNamed "refChanges" ms = [] ->
    fst (decodeBitbucketMembers ms cur saved) = cur.
Proof.
  induction ms as [|[k v] rest IH]; intros cur saved H; [reflexivity|].
  rewrite membersNamed_cons in H. cbn [decodeBitbucketMembers].
  destruct (equalFold "refChanges" k); [discriminate|]. by apply IH.
Qed.

(** With no key written twice, the records decoded are the records
    written. *)
Lemma decodeBitbucketMembers_once ms :
  forall saved,
    keysOnce ms = true ->
    RefID <$> elems (RefChanges (fst (decodeBitbucketMembers ms zeroBitbucket saved)))
    = recordIds ms.
Proof.
  unfold keysOnce, recordIds.
  induction ms as [|[k v] rest IH]; intros saved H; [reflexivity|].
  rewrite membersNamed_cons in *. cbn [decodeBitbucketMembers].
  destruct (equalFold "refChanges" k); [|by apply IH].
  apply andb_true_iff in H as [H1 H2].
  destruct (membersNamed "refChanges" rest) as [|y l] eqn:E; [|discriminate].
  cbn [forallb] in H2. apply andb_true_iff in H2 as [H2 _].
  pose proof (decodeSlice_once v saved H2) as S.
  cbn [RefChanges zeroBitbucket].
  destruct (decodeSlice v nilSlice saved) as [sl saved'].
  rewrite decodeBitbucketMembers_skip by exact E. cbn [RefChanges fst] in *.
  rewrite S. by destruct v.
Qed.

Lemma recordNames_recordId id v :
  id <> "" -> recordOnce v = true ->
  recordNames id v = true <-> recordId v = id.
Proof.
  intros N H. destruct v as [| | | | |ms];
    cbn [recordNames recordId]; try (split; [discriminate|congruence]).
  rewrite (existsb_membersNamed "refId"
             (fun x => match x with JString s => String.eqb s id | _ => false end)).
  cbn [recordOnce] in H.
  destruct (membersNamed "refId" ms) as [|x [|y l]]; [| |discriminate].
  - split; [discriminate|congruence].
  - cbn [existsb]. rewrite orb_false_r.
    destruct x; try (split; [discriminate|congruence]).
    apply String.eqb_eq.
Qed.

Lemma hasRecord_recordIds id ms :
  id <> "" -> keysOnce ms = true ->
  hasRecord id ms = true <-> id ∈ recordIds ms.
Proof.
  intros N H. unfold hasRecord, recordIds, keysOnce in *.
  rewrite (existsb_membersNamed "refChanges"
             (fun x => match x with JArray vs => existsb (recordNames id) vs | _ => false end)).
  apply andb_true_iff in H as [H1 H2].
  destruct (membersNamed "refChanges" ms) as [|v [|y l]]; [| |discriminate].
  - split; [discriminate|intros X; by apply elem_of_nil in X].
  - cbn [existsb forallb] in *. rewrite orb_false_r.
    apply andb_true_iff in H2 as [H2 _].
    destruct v as [| | | |vs|]; try (split; [discriminate|intros X; by apply elem_of_nil in X]).
    cbn [recordsOnce] in H2. rewrite list_elem_of_fmap. split.
    + intros X. apply existsb_exists in X as (r & I & X).
      exists r. split; [|by apply list_elem_of_In].
      symmetry. apply recordNames_recordId; auto.
      rewrite forallb_forall in H2. by apply H2.
    + intros (r & -> & I). apply existsb_exists. exists r.
      apply list_elem_of_In in I. split; [assumption|].
      apply recordNames_recordId; auto.
      rewrite forallb_forall in H2. by apply H2.
Qed.

Lemma hasRecord_noRecords id ms :
  forallb noRecords (membersNamed "refChanges" ms) = true -> hasRecord id ms = false.
Proof.
  unfold hasRecord.
  rewrite (existsb_membersNamed "refChanges"
             (fun x => match x with JArray vs => existsb (recordNames id) vs | _ => false end)).
  induction (membersNamed "refChanges" ms) as [|v l IH]; [reflexivity|].
  cbn [forallb existsb]. intros H. apply andb_true_iff in H as [H1 H2].
  rewrite (IH H2), orb_false_r. by destruct v as [| | | |[|]|].
Qed.

(** The [Ref()] of a decoded Bitbucket value is master only if the
    text has a record that names master. *)
Lemma master_hasRecord ms b :
  unmarshalPayload (Bytes (Doc (JObject ms))) = Ret (Some (Bitbucket b), None) ->
  call_Ref (Some (Bitbucket b)) = Ret "refs/heads/master" ->
  hasRecord "refs/heads/master" ms = true.
Proof.
  intros U R.
  destruct (accepted_hasRecord {| Body := Bytes (Doc (JObject ms)); URL_Path := "" |})
    as (ms' & B & _ & H).
  { exists (Some (Bitbucket b)). auto. }
  simpl in B. by injection B as <-.
Qed.




(** C3: the single-ref body [{"ref": s}] is a JSON object, so the
    first decoder takes it: the value returned is the zero
    [BitbucketServerWebhook], its [Ref()] is [not master] whatever [s]
    is, and [{"ref":"refs/heads/master"}] is answered 500 without any
    synchronisation. *)
Theorem C3_single_ref_body_is_not_master :
  (forall s, unmarshalPayload (Bytes (Doc (JObject [("ref", JString s)])))
             = Ret (Some (Bitbucket zeroBitbucket), None)) /\
  call_Ref (Some (Bitbucket zeroBitbucket)) = Ret "not master" /\
  (forall c path w,
     run (handleWebhook c (post path gitlabPush)) w =
     ([Called (log_Println ("ignoring changeset on '" ++ path
                            ++ "', not a change on master" ++ nl)) tt;
       Called (http_Error "500" StatusInternalServerError) tt],
      Returned, w)).
Proof.
  split; [|split]; reflexivity.
Qed.

(** The earlier version of [unmarshalPayload] does return the decode
    error on the bodies no decoder parses. *)
Lemma unmarshalPayload_v1_decode_error data :
  noDecoderParses data = true ->
  exists e, unmarshalPayload_v1 (Bytes data) = (None, Some e).
Proof.
  destruct data as [why|[]]; simpl; try discriminate; eauto.
  unfold noDecoderParses. simpl. intros H.
  apply andb_true_iff in H as [_ H]. discriminate.
Qed.

(** C2: when no decoder parses the body, [unmarshalPayload] returns a
    nil [Ref] together with a nil error (the error of the last decoder
    lives in the [if] statement only), and the handler, instead of
    answering 500, calls [Ref()] on the nil interface and panics
    before it has written anything. *)
Theorem C2_no_decoder_parses_gives_nil_error :
  forall data : payload,
    noDecoderParses data = true ->
    unmarshalPayload (Bytes data) = Ret (None, None) /\
    forall c path w,
      run (handleWebhook c {| Body := Bytes data; URL_Path := path |}) w
      = ([], Panicked nil_dereference, w).
Proof.
  intros data H.
  assert (U : unmarshalPayload (Bytes data) = Ret (None, None)).
  { unfold noDecoderParses in H. simpl in H. simpl.
    destruct (json_Unmarshal data (Bitbucket zeroBitbucket)) as [s1 [e1|]];
      [|discriminate].
    destruct (json_Unmarshal data (GitLab zeroGitLab)) as [s2 [e2|]];
      [reflexivity|discriminate]. }
  split; [exact U|]. intros c path w. unfold handleWebhook.
  cbn [Body]. rewrite U. reflexivity.
Qed.

Lemma C2_witness :
  noDecoderParses (Doc (JArray [])) = true /\
  unmarshalPayload (Bytes (Doc (JArray []))) = Ret (None, None) /\
  forall c path w,
    run (handleWebhook c {| Body := Bytes (Doc (JArray [])); URL_Path := path |}) w
    = ([], Panicked nil_dereference, w).
Proof.
  split; [reflexivity|].
  apply (C2_no_decoder_parses_gives_nil_error (Doc (JArray []))). reflexivity.
Defined.

(** C4: a body that is valid JSON but no object ([[]]), a body that is
    no JSON at all, and the body [null] each make the handler panic
    without any response having been written; the first two at
    [ref.Ref()] on the nil interface, the last at [s.(Ref)]. *)
Theorem C4_handler_panics_without_response :
  forall c path w,
    (run (handleWebhook c (post path (JArray []))) w = ([], Panicked nil_dereference, w) /\
     replies (callsOf c (post path (JArray [])) w) = []) /\
    (forall why,
       run (handleWebhook c {| Body := Bytes (Garbage why); URL_Path := path |}) w
       = ([], Panicked nil_dereference, w)) /\
    run (handleWebhook c (post path JNull)) w = ([], Panicked nil_interface_assertion, w).
Proof.
  intros c path w. repeat split; reflexivity.
Qed.

(* ===================================================================== *)
(** * The handler, one request at a time *)

Lemma replies_unlock t : replies (t ++ [Called mutex_Unlock tt]) = replies t.
Proof.
  induction t as [|[X e] t IH]; [reflexivity|].
  destruct e; simpl; try (rewrite IH; reflexivity); try exact IH.
  destruct t as [|[X' e'] t']; [reflexivity|].
  destruct e'; simpl in *; try (rewrite IH; reflexivity).
  injection IH as ->. reflexivity.
Qed.

(** Case analysis on every answer, for a property of all traces. *)
Ltac every_walk :=
  repeat (cbn beta zeta iota delta [every app];
          match goal with
          | |- forall _, _ => intros ?
          | |- every _ _ (match ?d with _ => _ end) => destruct d
          end).

(** Whatever the library answers, the synchronisation returns after
    one response, 500 or 200; it makes no call on the mutex; and once
    it has called [SetTarget] the response is 200. *)
Lemma synchronise_every c r rdir :
  every (fun t e =>
           e = Returned /\
           existsb (onEvent (@isMutexCall)) t = false /\
           (replies t = [(500, "500")] \/ replies t = [(200, "ok")]) /\
           (existsb isSetTarget t = true -> replies t = [(200, "ok")]))
        [] (synchronise c r rdir).
Proof.
  unfold synchronise, http500. every_walk;
    (split; [reflexivity|]; split; [reflexivity|]; split;
       [auto|simpl; try discriminate; auto]).
Qed.

Lemma run_synchronise c r rdir w :
  let '(t, e, _) := run (synchronise c r rdir) w in
  e = Returned /\
  existsb (onEvent (@isMutexCall)) t = false /\
  (replies t = [(500, "500")] \/ replies t = [(200, "ok")]) /\
  (existsb isSetTarget t = true -> replies t = [(200, "ok")]).
Proof.
  pose proof (run_every _ _ [] w (synchronise_every c r rdir)) as H.
  pose proof (lockfree_run _ w (lockfree_synchronise c r rdir)) as L.
  destruct (run (synchronise c r rdir) w) as [[t e] w'].
  apply H. tauto.
Qed.

(** The path guard, case by case. *)
Lemma run_criticalSection c r w :
  let dir := Join [HookPath c; URL_Path r] in
  let rdir := Join [HookPath c; URL_Path r; ".git"] in
  run (criticalSection c r) w =
  match files w !! dir with
  | None =>
      ([Called (os_Stat dir) (inr (PathError "stat" dir));
        Called (log_Printf ("invalid repository '" ++ dir ++ "': "
                            ++ Error (PathError "stat" dir) ++ nl)) tt;
        Called (http_Error "404" StatusNotFound) tt], Returned, w)
  | Some RegularFile =>
      ([Called (os_Stat dir) (inl {| IsDir := false |});
        Called (log_Printf ("not a directory: '" ++ dir ++ "'" ++ nl)) tt;
        Called (http_Error "404" StatusNotFound) tt], Returned, w)
  | Some Directory =>
      match files w !! rdir with
      | None =>
          ([Called (os_Stat dir) (inl {| IsDir := true |});
            Called (os_Stat rdir) (inr (PathError "stat" rdir));
            Called (log_Println "not a git repository") tt;
            Called (http_Error "403" StatusForbidden) tt], Returned, w)
      | Some RegularFile =>
          ([Called (os_Stat dir) (inl {| IsDir := true |});
            Called (os_Stat rdir) (inl {| IsDir := false |});
            Called (log_Println ".git a file, not a repository") tt;
            Called (http_Error "403" StatusForbidden) tt], Returned, w)
      | Some Directory =>
          let '(t, e, w') := run (synchronise c r rdir) w in
          (Called (os_Stat dir) (inl {| IsDir := true |})
             :: Called (os_Stat rdir) (inl {| IsDir := true |}) :: t, e, w')
      end
  end.
Proof.
  intros dir rdir. unfold criticalSection. fold dir. fold rdir.
  cbn [run exec].
  destruct (files w !! dir) as [[]|]; try reflexivity.
  cbn [negb IsDir run exec].
  destruct (files w !! rdir) as [[]|]; try reflexivity.
  cbn [negb IsDir].
  by destruct (run (synchronise c r rdir) w) as [[t e] w'].
Qed.

(** C9: a payload that parses but whose [Ref()] is not exactly
    [refs/heads/master] is logged and answered 500; the handler makes
    no call on the mutex, the file system or git, and the world is left
    as it was. *)
Theorem C9_not_master_is_ignored :
  forall c r v changed w,
    unmarshalPayload (Body r) = Ret (v, None) ->
    call_Ref v = Ret changed ->
    changed <> "refs/heads/master" ->
    run (handleWebhook c r) w =
      ([Called (log_Println ("ignoring changeset on '" ++ URL_Path r
                             ++ "', not a change on master" ++ nl)) tt;
        Called (http_Error "500" StatusInternalServerError) tt],
       Returned, w) /\
    replies (callsOf c r w) = [(500, "500")] /\
    existsb (onEvent (@isMutexCall)) (callsOf c r w) = false /\
    existsb (onEvent (@isRepositoryCall)) (callsOf c r w) = false /\
    worldAfter c r w = w.
Proof.
  intros c r v changed w U R N.
  assert (E : run (handleWebhook c r) w =
      ([Called (log_Println ("ignoring changeset on '" ++ URL_Path r
                             ++ "', not a change on master" ++ nl)) tt;
        Called (http_Error "500" StatusInternalServerError) tt],
       Returned, w)).
  { unfold handleWebhook. rewrite U, R. cbv beta iota.
    apply String.eqb_neq in N. rewrite N. reflexivity. }
  unfold callsOf, worldAfter. rewrite E. repeat split; reflexivity.
Qed.

Lemma C9_witness :
  unmarshalPayload (Body (post "/demo" featurePush)) =
    Ret (Some (Bitbucket {| RefChanges :=
           {| elems := [{| RefID := "refs/heads/feature-x" |}]; spare := [] |} |}),
         None) /\
  "not master" <> "refs/heads/master" /\
  run (handleWebhook cfg (post "/demo" featurePush)) demoWorld =
    ([Called (log_Println ("ignoring changeset on '/demo', not a change on master" ++ nl)) tt;
      Called (http_Error "500" StatusInternalServerError) tt],
     Returned, demoWorld) /\
  replies (callsOf cfg (post "/demo" featurePush) demoWorld) = [(500, "500")] /\
  existsb (onEvent (@isMutexCall)) (callsOf cfg (post "/demo" featurePush) demoWorld) = false /\
  existsb (onEvent (@isRepositoryCall)) (callsOf cfg (post "/demo" featurePush) demoWorld)
    = false /\
  worldAfter cfg (post "/demo" featurePush) demoWorld = demoWorld.
Proof.
  split; [reflexivity|]. split; [discriminate|].
  apply (C9_not_master_is_ignored cfg (post "/demo" featurePush)
           (Some (Bitbucket {| RefChanges :=
              {| elems := [{| RefID := "refs/heads/feature-x" |}]; spare := [] |} |}))
           "not master" demoWorld).
  - reflexivity.
  - reflexivity.
  - discriminate.
Defined.

(** The response of a request that has passed the master filter. *)
Lemma path_guard_replies c r w :
  accepted r -> locked w = false ->
  match files w !! Join [HookPath c; URL_Path r] with
  | Some Directory =>
      match files w !! Join [HookPath c; URL_Path r; ".git"] with
      | Some Directory =>
          replies (callsOf c r w) = [(500, "500")] \/
          replies (callsOf c r w) = [(200, "ok")]
      | _ => replies (callsOf c r w) = [(403, "403")]
      end
  | _ =>
      replies (callsOf c r w) = [(404, "404")] /\
      List.length (filter (fun ev => isStat ev = true) (callsOf c r w)) = 1
  end.
Proof.
  intros A L. unfold callsOf. rewrite (run_accepted c r w A L).
  rewrite run_criticalSection. cbn [files setLocked].
  destruct (files w !! Join [HookPath c; URL_Path r]) as [[]|];
    [|split; reflexivity|split; reflexivity].
  destruct (files w !! Join [HookPath c; URL_Path r; ".git"]) as [[]|];
    [|reflexivity|reflexivity].
  pose proof (run_synchronise c r (Join [HookPath c; URL_Path r; ".git"])
                (setLocked true w)) as S.
  destruct (run (synchronise c r _) (setLocked true w)) as [[t e] w'].
  destruct S as (_ & _ & S & _). cbn [fst snd].
  change (replies (Called (log_Printf _) tt :: Called mutex_Lock tt :: ?x))
    with (replies x).
  change (replies ((Called (os_Stat ?a) ?x :: Called (os_Stat ?b) ?y :: t)
                   ++ [Called mutex_Unlock tt]))
    with (replies (t ++ [Called mutex_Unlock tt])).
  rewrite replies_unlock. exact S.
Qed.

Lemma accepted_masterPush path : accepted (post path masterPush).
Proof.
  exists (Some (Bitbucket {| RefChanges :=
            {| elems := [{| RefID := "refs/heads/master" |}]; spare := [] |} |})).
  split; reflexivity.
Defined.

(** Which decoder answers for a JSON object. *)
Lemma unmarshalPayload_by_shape ms :
  unmarshalPayload (Bytes (Doc (JObject ms))) =
  if refChangeListShape ms
  then Ret (Some (Bitbucket (fst (decodeBitbucketMembers ms zeroBitbucket None))), None)
  else Ret (Some (GitLab zeroGitLab), None).
Proof.
  rewrite unmarshalPayload_object.
  pose proof (decodeBitbucketMembers_clean ms zeroBitbucket None) as C.
  destruct (decodeBitbucketMembers ms zeroBitbucket None) as [b [e|]];
    destruct (refChangeListShape ms); simpl in *; try reflexivity.
  - destruct C as [_ C]. by specialize (C (conj eq_refl eq_refl)).
  - destruct C as [C _]. by destruct (C eq_refl).
Qed.

(** The handler takes the mutex only for accepted requests. *)
Lemma lock_taken_accepted c r w :
  existsb isLock (callsOf c r w) = true -> accepted r.
Proof.
  intros H. destruct (classic_accepted r) as [A|N]; [assumption|].
  unfold callsOf in H.
  destruct (run_rejected c r w N) as [[msg E]|[msg E]]; rewrite E in H;
    cbn in H; discriminate.
Qed.




(* ===================================================================== *)
(** * The update serializer *)

(** A call allowed by the discipline answers, unless it is
    [mutex.Lock] on the locked mutex. *)
Lemma allowed_enabled {X} (e : Eff X) (h : bool) w :
  allowed e h = true -> (h = true -> locked w = true) ->
  (exists x w', exec e w = Reply x w') \/ (h = false /\ locked w = true).
Proof.
  intros A L. destruct (isMutexCall e) eqn:M.
  - destruct e; try discriminate; simpl in *.
    + destruct h; [discriminate|]. destruct (locked w); eauto.
    + rewrite (L A). eauto.
  - destruct (exec_answers e w M) as (x & w' & E & _). eauto.
Qed.

(** No deadlock: while some goroutine has not finished, some goroutine
    can make its next call.  A goroutine waiting in [mutex.Lock] waits
    for one that is inside its critical section and can go on. *)
Lemma invariant_progress P i X (e : Eff X) k h :
  invariant P ->
  pool P !! i = Some {| code := Do e k; holding := h |} ->
  exists P', step P P'.
Proof.
  intros (D & LH & ME) Hi.
  assert (Go : forall j X' (e' : Eff X') k' h',
            pool P !! j = Some {| code := Do e' k'; holding := h' |} ->
            (exists P', step P P') \/ (h' = false /\ locked (world P) = true)).
  { intros j X' e' k' h' Hj. destruct (D j _ Hj) as [A _]. simpl in A.
    destruct (allowed_enabled e' h' (world P) A) as [(x & w' & E)|?]; [| |auto].
    - intros ->. apply LH. eauto.
    - left. eexists. eapply step_call; eauto. }
  destruct (Go i X e k h Hi) as [?|[_ L]]; [assumption|].
  apply LH in L as (j & [cj hj] & Hj & Hh). simpl in Hh. subst hj.
  pose proof (D j _ Hj) as B. simpl in B.
  destruct cj as [a|msg|X' e' k']; simpl in B; try discriminate.
  destruct (Go j X' e' k' true Hj) as [?|[? _]]; [assumption|discriminate].
Qed.


(** A run that gets past the master filter: the mutex is taken right
    before the first [os.Stat], nothing else touches it until it is
    released by the last call, and the one response is written in
    between. *)
Lemma accepted_run_shape c r w :
  accepted r -> locked w = false ->
  exists f t,
    callsOf c r w =
      Called (log_Printf ("updating repository '" ++ Join [HookPath c; URL_Path r]
                          ++ "'" ++ nl)) tt
      :: Called mutex_Lock tt
      :: Called (os_Stat (Join [HookPath c; URL_Path r])) f
      :: t ++ [Called mutex_Unlock tt] /\
    existsb (onEvent (@isMutexCall)) t = false /\
    replies (callsOf c r w) = replies t /\
    List.length (replies t) = 1 /\
    endingOf c r w = Returned /\
    locked (worldAfter c r w) = false.
Proof.
  intros A L. unfold callsOf, endingOf, worldAfter.
  rewrite (run_accepted c r w A L), run_criticalSection. cbn [files setLocked].
  destruct (files w !! Join [HookPath c; URL_Path r]) as [[]|];
    [|do 2 eexists; repeat split; reflexivity..].
  destruct (files w !! Join [HookPath c; URL_Path r; ".git"]) as [[]|];
    [|do 2 eexists; repeat split; reflexivity..].
  pose proof (run_synchronise c r (Join [HookPath c; URL_Path r; ".git"])
                (setLocked true w)) as S.
  destruct (run (synchronise c r _) (setLocked true w)) as [[t e] w'].
  destruct S as (-> & M & S & _). cbn [fst snd].
  exists (inl {| IsDir := true |}),
    (Called (os_Stat (Join [HookPath c; URL_Path r; ".git"])) (inl {| IsDir := true |}) :: t).
  repeat split; try assumption.
  - change (replies (Called (log_Printf _) tt :: Called mutex_Lock tt :: ?x))
      with (replies x).
    change (replies ((Called (os_Stat ?a) ?x :: Called (os_Stat ?b) ?y :: t)
                     ++ [Called mutex_Unlock tt]))
      with (replies (t ++ [Called mutex_Unlock tt])).
    by rewrite replies_unlock.
  - change (replies (Called (os_Stat ?a) ?x :: t)) with (replies t).
    destruct S as [-> | ->]; reflexivity.
Qed.

(** Apart from the panics before the first call, the handler returns
    after exactly one response. *)
Lemma one_response_unless_panic c r w :
  locked w = false ->
  (endingOf c r w = Returned /\ List.length (replies (callsOf c r w)) = 1) \/
  (exists msg, endingOf c r w = Panicked msg /\ callsOf c r w = []).
Proof.
  intros L. destruct (classic_accepted r) as [A|N].
  - destruct (accepted_run_shape c r w A L) as (f & t & _ & _ & R & N & E & _).
    left. rewrite R. auto.
  - unfold endingOf, callsOf.
    destruct (run_rejected c r w N) as [[msg E]|[msg E]]; rewrite E; eauto.
Qed.

(** A response written inside the critical section is written before
    the release. *)
Lemma response_inside_not_released t :
  existsb isUnlock t = false -> replies t <> [] ->
  forall rest, releasedBeforeResponse false (t ++ rest) = false.
Proof.
  induction t as [|[X e] t IH]; intros U R rest; [contradiction|].
  destruct e; simpl in *; try discriminate; auto.
Qed.

(** C8 does not hold where it puts the release before the response:
    on a push for a directory that does not exist the 404 is written
    while the mutex is held, and the release is the last call of the
    handler. *)
Lemma C8_counterexample :
  ~ (forall c r w, locked w = false ->
       releasedBeforeResponse false (callsOf c r w) = true).
Proof.
  intros H. specialize (H cfg (post "/missing" masterPush) demoWorld eq_refl).
  vm_compute in H. discriminate.
Qed.

(** C8, as the code has it: among the goroutines serving any requests, at most
    one is between its [mutex.Lock] and its [mutex.Unlock], a call on
    the file system or on git is made only there, and the mutex is
    locked exactly when some goroutine is there; [mutex.Lock] on the
    locked mutex waits and answers once the mutex is free, it never
    fails, and while a goroutine has not finished some goroutine can
    make its next call.  In each handler the mutex is taken immediately before the
    first [os.Stat] and released on every exit path by the deferred
    [mutex.Unlock], which is the last call of the handler: the
    response has been written by then. *)
Theorem C8_one_synchronisation_at_a_time :
  (forall c w rs P,
     locked w = false -> reachable c w rs P ->
     mutualExclusion P /\ repositoryCallsInside P /\ lockMatchesHolder P) /\
  (forall w,
     exec mutex_Lock w = if locked w then Blocked else Reply tt (setLocked true w)) /\
  (forall c w rs P i X (e : Eff X) k h,
     locked w = false -> reachable c w rs P ->
     pool P !! i = Some {| code := Do e k; holding := h |} ->
     exists P', step P P') /\
  (forall c r w,
     accepted r -> locked w = false ->
     exists f t,
       callsOf c r w =
         Called (log_Printf ("updating repository '" ++ Join [HookPath c; URL_Path r]
                             ++ "'" ++ nl)) tt
         :: Called mutex_Lock tt
         :: Called (os_Stat (Join [HookPath c; URL_Path r])) f
         :: t ++ [Called mutex_Unlock tt] /\
       existsb (onEvent (@isMutexCall)) t = false /\
       replies (callsOf c r w) = replies t /\
       List.length (replies t) = 1 /\
       releasedBeforeResponse false (callsOf c r w) = false /\
       endingOf c r w = Returned /\
       locked (worldAfter c r w) = false) /\
  (forall c r w,
     ~ accepted r ->
     existsb (onEvent (@isMutexCall)) (callsOf c r w) = false /\
     existsb (onEvent (@isRepositoryCall)) (callsOf c r w) = false /\
     worldAfter c r w = w).
Proof.
  split; [|split; [|split; [|split]]].
  - intros c w rs P L R.
    destruct (invariant_reachable c w rs P L R) as (D & LH & ME).
    auto using disciplined_inside.
  - reflexivity.
  - intros c w rs P i X e k h L R Hi.
    eapply invariant_progress; eauto using invariant_reachable.
  - intros c r w A L.
    destruct (accepted_run_shape c r w A L) as (f & t & E & M & R & N & F & U).
    exists f, t. repeat split; try assumption.
    rewrite E.
    change (releasedBeforeResponse false (t ++ [Called mutex_Unlock tt]) = false).
    apply response_inside_not_released.
    + clear -M. induction t as [|[X e] t IH]; [reflexivity|].
      simpl in *. destruct e; simpl in *; auto; discriminate.
    + intros Z. rewrite Z in N. discriminate.
  - intros c r w N. unfold callsOf, worldAfter.
    destruct (run_rejected c r w N) as [[msg E]|[msg E]]; rewrite E;
      repeat split; reflexivity.
Qed.

Lemma C8_witness :
  locked demoWorld = false /\
  exists P,
    reachable cfg demoWorld [post "/demo" masterPush; post "/missing" masterPush] P /\
    locked (world P) = true /\
    mutualExclusion P /\ repositoryCallsInside P /\ lockMatchesHolder P.
Proof.
  split; [reflexivity|].
  assert (exists P,
            reachable cfg demoWorld [post "/demo" masterPush; post "/missing" masterPush] P /\
            locked (world P) = true) as (P & R & L).
  { eexists. split.
    - unfold reachable.
      eapply rtc_l.
      { eapply (step_call _ 0); [cbv; reflexivity|reflexivity]. }
      eapply rtc_l.
      { eapply (step_call _ 0); [cbn [pool]; reflexivity|reflexivity]. }
      apply rtc_refl.
    - reflexivity. }
  exists P. split; [exact R|]. split; [exact L|].
  apply (proj1 C8_one_synchronisation_at_a_time cfg demoWorld
           [post "/demo" masterPush; post "/missing" masterPush] P).
  - reflexivity.
  - exact R.
Defined.

(* ===================================================================== *)
(** * The repository synchronizer *)

(** ** The synchronisation when the reference updates go through *)

Lemma reading_inl {A} X (e : Eff X) repo w (f : GitRepo -> result A) a :
  reading X e repo w f = inl a ->
  exists g, repositories w !! repo_path repo = Some g /\ f g = inl a.
Proof.
  unfold reading. destruct (failing w X e); [discriminate|].
  destruct (repositories w !! repo_path repo) as [g|]; [|discriminate]. eauto.
Qed.

Lemma writing_cases X (e : Eff X) repo w f :
  (exists err, writing X e repo w f = (Some err, w)) \/
  (exists g, repositories w !! repo_path repo = Some g /\
             writing X e repo w f = (None, setRepo repo (f g) w)).
Proof.
  unfold writing. destruct (failing w X e); [eauto|].
  destruct (repositories w !! repo_path repo) as [g|]; eauto.
Qed.

Lemma lookup_setRepo repo g w :
  repositories (setRepo repo g w) !! repo_path repo = Some g.
Proof. simpl. apply lookup_insert_eq. Qed.

Lemma exec_SetTarget r target w g :
  failing w _ (SetTarget r target) = false ->
  repositories w !! repo_path (ref_repo r) = Some g ->
  exec (SetTarget r target) w =
  match setTarget r target g with
  | inl g' =>
      Reply (inl {| ref_repo := ref_repo r; ref_name := ref_name r; Target := target |})
            (setRepo (ref_repo r) g' w)
  | inr err => Reply (inr err) w
  end.
Proof. intros F G. cbn [exec]. unfold reading. rewrite F, G. reflexivity. Qed.

(** One call of a function body that is not on the mutex. *)
Lemma run_call {X} (e : Eff X) (k : X -> prog unit) w t r w'' :
  isMutexCall e = false ->
  run (Do e k) w = (t, r, w'') ->
  exists x w' t', exec e w = Reply x w' /\ t = Called e x :: t' /\
                  run (k x) w' = (t', r, w'').
Proof.
  intros M H. simpl in H.
  destruct (exec_answers e w M) as (x & w' & E & _). rewrite E in H.
  destruct (run (k x) w') as [[t' r'] w3] eqn:R. injection H as <- <- <-.
  eauto 10.
Qed.

(** The two [SetTarget] calls, on the snapshots taken by [repo.Head()]
    and [repo.LookupReference]: the first moves [master]; the second
    moves what HEAD stands for, or finds it moved already. *)
Lemma setTarget_both (g : GitRepo) (repo : Repository) (head : Reference) (id old : Oid) :
  refs g !! "refs/remotes/origin/master" = Some id ->
  refs g !! "refs/heads/master" = Some old ->
  match HEAD g with
  | Symbolic name =>
      match refs g !! name with
      | Some at_ => inl {| ref_repo := repo; ref_name := name; Target := at_ |}
      | None => inr (notFound "reference")
      end
  | Detached at_ => inl {| ref_repo := repo; ref_name := "HEAD"; Target := at_ |}
  end = inl head ->
  setTarget {| ref_repo := repo; ref_name := "refs/heads/master"; Target := old |} id g
    = inl (setRef "refs/heads/master" id g) /\
  forall g2,
    g2 = match setTarget head id (setRef "refs/heads/master" id g) with
         | inl g' => g'
         | inr _ => setRef "refs/heads/master" id g
         end ->
    origin g2 = origin g /\ syncedAt id g2.
Proof.
  intros T M Hd. split.
  { unfold setTarget. cbn [ref_name Target].
    change (String.eqb "refs/heads/master" "HEAD") with false. cbv iota.
    rewrite M, String.eqb_refl. reflexivity. }
  intros g2 ->. unfold syncedAt, resolveHEAD, setTarget.
  destruct (HEAD g) as [name|at_] eqn:HG.
  - destruct (refs g !! name) as [at_|] eqn:N; [|discriminate].
    injection Hd as <-. cbn [ref_name Target setRef HEAD refs]. rewrite HG.
    destruct (String.eqb name "HEAD") eqn:EH.
    + apply String.eqb_eq in EH. subst name. cbn [setRef HEAD refs origin].
      rewrite HG. split; [reflexivity|].
      rewrite lookup_insert_ne by discriminate. rewrite lookup_insert_eq.
      repeat split; auto. intros C. by destruct C.
    + destruct (decide (name = "refs/heads/master")) as [->|NM].
      * rewrite lookup_insert_eq.
        destruct (String.eqb id at_); cbn [setRef HEAD refs origin]; rewrite HG;
          (split; [reflexivity|]);
          repeat (rewrite lookup_insert_eq || rewrite lookup_insert_ne by discriminate);
          auto.
      * rewrite lookup_insert_ne by congruence. rewrite N, String.eqb_refl.
        cbn [setRef HEAD refs origin]. rewrite HG. split; [reflexivity|].
        rewrite lookup_insert_eq.
        rewrite (lookup_insert_ne _ name "refs/heads/master") by assumption.
        rewrite lookup_insert_eq.
        destruct (decide (name = "refs/remotes/origin/master")) as [->|NT].
        -- rewrite lookup_insert_eq. auto.
        -- rewrite !lookup_insert_ne by (assumption || discriminate). auto.
  - injection Hd as <-. cbn [ref_name Target setRef HEAD refs]. rewrite HG.
    rewrite !String.eqb_refl. cbn [setHEAD setRef HEAD refs origin].
    split; [reflexivity|].
    rewrite lookup_insert_ne by discriminate. rewrite lookup_insert_eq. auto.
Qed.

(** Peel one call off a run. *)
Ltac call0 H E :=
  apply run_call in H as (? & ? & ? & E & -> & H); [|reflexivity].

Ltac call H :=
  let E := fresh "E" in
  call0 H E; cbn [exec] in E.

(** A failing step answers 500, not 200. *)
Ltac failed H R :=
  unfold http500 in H; cbn in H; injection H as <- _ _; cbn in R; discriminate R.

(** A call that reads the repository, whose state is known. *)
Ltac reads H R G :=
  let E := fresh "E" in
  let g := fresh "g" in
  let G' := fresh "G" in
  call H; injection E as <- <-;
  match type of H with
  | run (match ?d with _ => _ end) _ = _ =>
      destruct d eqn:E; [|failed H R];
      apply reading_inl in E as (g & G' & E); cbn [repo_path commit_repo] in G';
      rewrite G in G'; injection G' as <-
  end.

(** A call that changes it: [G] and [F] are restated for the world
    the call leaves. *)
Ltac writes H R G F :=
  let E := fresh "E" in
  let W := fresh "W" in
  let g := fresh "g" in
  let G' := fresh "G" in
  call H;
  match type of E with
  | context [writing ?X ?e ?repo ?w ?f] =>
      destruct (writing_cases X e repo w f) as [[? W]|(g & G' & W)];
      rewrite W in E; injection E as <- <-; [failed H R|];
      cbn [repo_path remote_repo] in G'; rewrite G in G'; injection G' as <-;
      clear G W;
      match type of H with
      | run _ (setRepo ?rp ?g1 ?w0) = _ =>
          assert (G : repositories (setRepo rp g1 w0) !! repo_path rp = Some g1)
            by apply lookup_setRepo;
          pose proof (eq_trans (eq_refl : failing (setRepo rp g1 w0) = failing w0) F) as W;
          clear F; rename W into F;
          cbn [repo_path] in G;
          generalize dependent (setRepo rp g1 w0); intros
      end
  end.

Lemma run_synchronise_ok c r rdir w t e w' :
  (forall ref target, failing w _ (SetTarget ref target) = false) ->
  run (synchronise c r rdir) w = (t, e, w') ->
  replies t = [(200, "ok")] ->
  exists g0 g id,
    repositories w !! rdir = Some g0 /\
    repositories w' !! rdir = Some g /\
    failing w' = failing w /\
    origin g = origin g0 /\
    match origin g0 with
    | Some (Some o) => id = o
    | _ => refs g0 !! "refs/remotes/origin/master" = Some id
    end /\
    syncedAt id g.
Proof.
  intros NF H R. unfold synchronise in H.
  assert (F : failing w = failing w) by reflexivity.
  (* open *)
  call H. injection E as <- <-.
  destruct (reading _ (git_OpenRepositoryExtended rdir) _ w _) as [repo|err] eqn:E1;
    [|failed H R].
  apply reading_inl in E1 as (g0 & G0 & E1). injection E1 as <-. cbn [repo_path] in G0.
  exists g0. pose proof G0 as G.
  (* remote *)
  reads H R G.
  destruct (origin g0) as [up|] eqn:O; [|discriminate]. cbn in E. injection E as <-.
  (* fetch *)
  writes H R G F.
  (* tracking reference *)
  reads H R G.
  match type of E with
  | match refs ?g !! _ with _ => _ end = _ => set (g1 := g) in *
  end.
  destruct (refs g1 !! "refs/remotes/origin/master") as [id|] eqn:T; [|discriminate].
  injection E as <-. cbn [Target] in H.
  assert (Up : match up with
               | Some o => id = o
               | None => refs g0 !! "refs/remotes/origin/master" = Some id
               end).
  { subst g1. rewrite O in T. destruct up as [o|]; [|assumption].
    cbn [refs setRef] in T. rewrite lookup_insert_eq in T. congruence. }
  assert (O1 : origin g1 = origin g0).
  { subst g1. rewrite O. by destruct up. }
  clearbody g1.
  (* annotated commit, merge, commit, tree, checkout *)
  reads H R G. injection E as <-.
  writes H R G F.
  reads H R G. injection E as <-.
  reads H R G. injection E as <-.
  writes H R G F.
  (* head and local master *)
  reads H R G. rename E into Hd. cbn [HEAD refs setWorktree setState] in Hd.
  reads H R G. cbn [refs setWorktree setState] in E.
  destruct (refs g1 !! "refs/heads/master") as [old|] eqn:M; [|discriminate].
  injection E as <-.
  (* the two reference updates, whose answers are dropped *)
  set (g3 := setWorktree _ _) in G.
  assert (RR : ref_repo r0 = {| repo_path := rdir |}).
  { clear -Hd. destruct (HEAD g1); [destruct (refs g1 !! _); [|discriminate]|];
      injection Hd as <-; reflexivity. }
  destruct (setTarget_both g3 {| repo_path := rdir |} r0 id old T M Hd) as [S1 S2].
  specialize (S2 _ eq_refl) as [O2 SY].
  call0 H E. rewrite (exec_SetTarget _ _ _ g3) in E by (rewrite ?F; auto).
  rewrite S1 in E. injection E as <- <-. cbn [ref_repo] in H.
  call0 H E.
  rewrite (exec_SetTarget _ _ _ (setRef "refs/heads/master" id g3)) in E;
    [|rewrite <- (NF r0 id), <- F; reflexivity
     |rewrite RR; apply lookup_setRepo].
  set (g5 := match setTarget r0 id (setRef "refs/heads/master" id g3) with
             | inl g' => g'
             | inr _ => setRef "refs/heads/master" id g3
             end) in *.
  match type of H with
  | run _ ?xw = _ =>
      assert (repositories xw !! rdir = Some g5 /\ failing xw = failing w) as [G5 F5]
  end.
  { subst g5. destruct (setTarget r0 id _) as [g'|err]; injection E as <- <-;
      (split; [rewrite ?RR; apply lookup_setRepo|rewrite <- F; reflexivity]). }
  clear E G F. clearbody g5.
  (* cleanup and the response *)
  call H.
  match type of H with
  | run _ ?xw = _ =>
      assert (exists g6, repositories xw !! rdir = Some g6 /\ failing xw = failing w /\
                         refs g6 = refs g5 /\ HEAD g6 = HEAD g5 /\ origin g6 = origin g5)
        as (g6 & G6 & F6 & R6 & H6 & O6)
  end.
  { match type of E with
    | context [writing ?X ?e ?repo ?w ?f] =>
        destruct (writing_cases X e repo w f) as [[? W]|(g & G' & W)];
          rewrite W in E; injection E as <- <-
    end.
    - exists g5. auto.
    - cbn [repo_path] in G'. rewrite G5 in G'. injection G' as <-.
      eexists. split; [apply lookup_setRepo|]. split; [exact F5|]. auto. }
  clear E.
  call H. injection E as <- <-.
  call H. injection E as <- <-.
  call H. injection E as <- <-.
  cbn in H. injection H as <- <- <-.
  exists g6, id. split; [assumption|]. split; [assumption|]. split; [assumption|].
  split; [rewrite O6, O2; change (origin g1 = Some up); congruence|]. split.
  - exact Up.
  - destruct SY as (Y1 & Y2 & Y3). unfold syncedAt, resolveHEAD in *.
    rewrite R6, H6. auto.
Qed.

(** When the two reference updates are not hindered, a run that
    reports success leaves [refs/heads/master], HEAD and the tracking
    reference at the commit the remote had at the fetch. *)
Lemma success_resets_master c r w :
  accepted r -> locked w = false ->
  (forall ref target, failing w _ (SetTarget ref target) = false) ->
  replies (callsOf c r w) = [(200, "ok")] ->
  exists g0 g id,
    repositories w !! Join [HookPath c; URL_Path r; ".git"] = Some g0 /\
    repositories (worldAfter c r w) !! Join [HookPath c; URL_Path r; ".git"] = Some g /\
    failing (worldAfter c r w) = failing w /\
    locked (worldAfter c r w) = false /\
    origin g = origin g0 /\
    match origin g0 with
    | Some (Some o) => id = o
    | _ => refs g0 !! "refs/remotes/origin/master" = Some id
    end /\
    syncedAt id g.
Proof.
  intros A L NF. unfold callsOf, worldAfter.
  rewrite (run_accepted c r w A L), run_criticalSection. cbn [files setLocked].
  destruct (files w !! Join [HookPath c; URL_Path r]) as [[]|]; try discriminate.
  destruct (files w !! Join [HookPath c; URL_Path r; ".git"]) as [[]|]; try discriminate.
  destruct (run (synchronise c r _) (setLocked true w)) as [[t e] w'] eqn:S.
  cbn [fst snd].
  change (replies (Called (log_Printf _) tt :: Called mutex_Lock tt :: ?x))
    with (replies x).
  change (replies ((Called (os_Stat ?a) ?x :: Called (os_Stat ?b) ?y :: t)
                   ++ [Called mutex_Unlock tt]))
    with (replies (t ++ [Called mutex_Unlock tt])).
  rewrite replies_unlock. intros R.
  destruct (run_synchronise_ok c r _ (setLocked true w) t e w' NF S R)
    as (g0 & g & id & G0 & G & F & O & U & Y).
  exists g0, g, id. repeat split; try assumption; apply Y.
Qed.

(** Then a second run with nothing new on the remote ends at the same
    commit. *)
Lemma success_twice_same_commit c r w :
  accepted r -> locked w = false ->
  (forall ref target, failing w _ (SetTarget ref target) = false) ->
  replies (callsOf c r w) = [(200, "ok")] ->
  replies (callsOf c r (worldAfter c r w)) = [(200, "ok")] ->
  exists g1 g2 id,
    repositories (worldAfter c r w) !! Join [HookPath c; URL_Path r; ".git"] = Some g1 /\
    repositories (worldAfter c r (worldAfter c r w)) !! Join [HookPath c; URL_Path r; ".git"]
      = Some g2 /\
    syncedAt id g1 /\ syncedAt id g2.
Proof.
  intros A L NF R1 R2.
  destruct (success_resets_master c r w A L NF R1)
    as (g0 & g1 & id & G0 & G1 & F1 & L1 & O1 & U1 & Y1).
  assert (NF1 : forall ref target,
            failing (worldAfter c r w) _ (SetTarget ref target) = false).
  { intros. rewrite F1. apply NF. }
  destruct (success_resets_master c r _ A L1 NF1 R2)
    as (g1' & g2 & id' & G1' & G2 & _ & _ & _ & U2 & Y2).
  rewrite G1 in G1'. injection G1' as <-.
  assert (id' = id) as ->.
  { destruct Y1 as (T1 & _). rewrite O1 in U2.
    destruct (origin g0) as [[o|]|]; congruence. }
  exists g1, g2, id. auto.
Qed.

(** C5: in the working copy whose [refs/heads/master] cannot be
    written, both [SetTarget] calls of the handler answer with an
    error; the handler does not look at what they answer and responds
    200 [ok].  Whatever the library answers, once [SetTarget] has been
    called the handler returns after the response 200 [ok]. *)
Theorem C5_failed_ref_update_is_answered_ok :
  filter (fun ev => isSetTarget ev = true)
         (callsOf cfg (post "/demo" masterPush) lockedRefWorld)
    = [Called (SetTarget demoMaster "c1") (inr ioError);
       Called (SetTarget demoMaster "c1") (inr ioError)] /\
  replies (callsOf cfg (post "/demo" masterPush) lockedRefWorld) = [(200, "ok")] /\
  endingOf cfg (post "/demo" masterPush) lockedRefWorld = Returned /\
  (forall c r rdir,
     every (fun t e => existsb isSetTarget t = true ->
                       e = Returned /\ replies t = [(200, "ok")])
           [] (synchronise c r rdir)).
Proof.
  split; [vm_compute; reflexivity|]. split; [vm_compute; reflexivity|].
  split; [vm_compute; reflexivity|].
  intros c r rdir. unfold synchronise, http500. every_walk;
    simpl; (discriminate || auto).
Qed.

(** C1: in the same working copy the run reports success although
    [refs/heads/master] and HEAD still resolve to the old commit [c0]
    while [refs/remotes/origin/master] is at [c1] since the fetch; a
    second run reports success again and leaves the same state. *)
Theorem C1_success_with_master_behind_remote :
  replies (callsOf cfg (post "/demo" masterPush) lockedRefWorld) = [(200, "ok")] /\
  trackingOf (worldAfter cfg (post "/demo" masterPush) lockedRefWorld) = Some "c1" /\
  masterOf (worldAfter cfg (post "/demo" masterPush) lockedRefWorld) = Some "c0" /\
  headOf (worldAfter cfg (post "/demo" masterPush) lockedRefWorld) = Some "c0" /\
  replies (callsOf cfg (post "/demo" masterPush)
             (worldAfter cfg (post "/demo" masterPush) lockedRefWorld)) = [(200, "ok")] /\
  masterOf (worldAfter cfg (post "/demo" masterPush)
              (worldAfter cfg (post "/demo" masterPush) lockedRefWorld)) = Some "c0".
Proof.
  repeat split; vm_compute; reflexivity.
Qed.

(* ===================================================================== *)
(** * The scenarios of the specification *)

(** A push to master for [demo]: 200 [ok], and [master], HEAD and the
    tracking reference are at the commit of the remote. *)
Example scenario_demo :
  replies (callsOf cfg (post "/demo" masterPush) demoWorld) = [(200, "ok")] /\
  masterOf (worldAfter cfg (post "/demo" masterPush) demoWorld) = Some "c1" /\
  headOf (worldAfter cfg (post "/demo" masterPush) demoWorld) = Some "c1" /\
  trackingOf (worldAfter cfg (post "/demo" masterPush) demoWorld) = Some "c1".
Proof. repeat split; vm_compute; reflexivity. Qed.

(** A push to another branch: 500, and the repository is untouched. *)
Example scenario_feature :
  replies (callsOf cfg (post "/demo" featurePush) demoWorld) = [(500, "500")] /\
  masterOf (worldAfter cfg (post "/demo" featurePush) demoWorld) = Some "c0".
Proof. repeat split; vm_compute; reflexivity. Qed.

(** No such directory under the hook root: 404. *)
Example scenario_missing :
  replies (callsOf cfg (post "/missing" masterPush) demoWorld) = [(404, "404")] /\
  masterOf (worldAfter cfg (post "/missing" masterPush) demoWorld) = Some "c0".
Proof. repeat split; vm_compute; reflexivity. Qed.

(** A directory without [.git]: 403; a plain file: 404. *)
Example scenario_not_a_repo :
  replies (callsOf cfg (post "/not-a-repo" masterPush) demoWorld) = [(403, "403")] /\
  replies (callsOf cfg (post "/notes.txt" masterPush) demoWorld) = [(404, "404")].
Proof. repeat split; vm_compute; reflexivity. Qed.

(* ===================================================================== *)
(** * Further properties of the handler *)

(** ** Runs under the locking discipline *)

Lemma exec_allowed {X} (e : Eff X) (h : bool) w :
  allowed e h = true -> locked w = h ->
  exists x w', exec e w = Reply x w' /\ locked w' = after e h /\ files w' = files w.
Proof.
  intros A L. destruct (isMutexCall e) eqn:M.
  - destruct e; try discriminate; simpl in *.
    + rewrite L. destruct h; [discriminate|]. eauto.
    + rewrite L, A. eauto.
  - destruct (exec_answers e w M) as (x & w' & E & L' & F).
    exists x, w'. repeat split; auto.
    rewrite L', L. destruct e; try discriminate; reflexivity.
Qed.

Lemma bracketed_run (p : prog unit) :
  forall h w, bracketed h p -> locked w = h ->
    let '(_, e, w') := run p w in
    (e = Returned \/ exists msg, e = Panicked msg) /\
    locked w' = false /\ files w' = files w.
Proof.
  induction p as [a|msg|X e k IH]; intros h w B L; simpl in *.
  - subst. eauto.
  - subst. eauto.
  - destruct B as [A B].
    destruct (exec_allowed e h w A L) as (x & w' & -> & L' & F).
    specialize (IH x (after e h) w' (B x) L').
    destruct (run (k x) w') as [[t r] w'']. rewrite <- F. exact IH.
Qed.

Lemma exec_faithful {X} (e : Eff X) w x w' :
  exec e w = Reply x w' -> faithful e x.
Proof.
  destruct e; simpl; auto; intros H; injection H as <- _;
    match goal with
    | |- match ?d with _ => _ end => destruct d as [a|] eqn:E; [|exact I]
    end;
    apply reading_inl in E as (g & _ & E);
    repeat match type of E with
           | match ?d with _ => _ end = _ => destruct d; try discriminate
           end;
    injection E as <-; reflexivity.
Qed.

Lemma run_everyFaithful (Q : list event -> ending -> Prop) (p : prog unit) :
  forall past w,
    everyFaithful Q past p ->
    let '(t, e, _) := run p w in
    (e = Returned \/ exists msg, e = Panicked msg) -> Q (past ++ t) e.
Proof.
  induction p as [a|msg|X e k IH]; intros past w H; simpl in *.
  - intros _. by rewrite app_nil_r.
  - intros _. by rewrite app_nil_r.
  - destruct (exec e w) as [x w'| |msg] eqn:E.
    + specialize (IH x (past ++ [Called e x]) w' (H x (exec_faithful e w x w' E))).
      destruct (run (k x) w') as [[t r] w''].
      intros R. rewrite <- app_assoc in IH. by apply IH.
    + intros [?|[? ?]]; discriminate.
    + intros [?|[? ?]]; discriminate.
Qed.

(** The handler, alone in the process with the mutex free, returns or
    panics; it never waits for itself and never unlocks a free mutex. *)
Lemma handler_ends c r w :
  locked w = false ->
  (endingOf c r w = Returned \/ exists msg, endingOf c r w = Panicked msg) /\
  locked (worldAfter c r w) = false /\ files (worldAfter c r w) = files w.
Proof.
  intros L. unfold endingOf, worldAfter.
  pose proof (bracketed_run _ false w (handleWebhook_bracketed c r) L) as B.
  by destruct (run (handleWebhook c r) w) as [[t e] w'].
Qed.

#[local] Arguments Join : simpl never.

(** Case analysis on every faithful answer. *)
Ltac faithful_walk :=
  repeat (cbn beta zeta iota delta [everyFaithful defer app];
          match goal with
          | F : True |- _ => clear F
          | F : repo_path ?r = _ |- _ => destruct r; simpl in F; subst
          | F : remote_repo ?r = _ |- _ => destruct r; simpl in F; subst
          | F : ref_repo ?r = _ |- _ => destruct r; simpl in F; subst
          | F : commit_repo ?r = _ |- _ => destruct r; simpl in F; subst
          | F : tree_repo ?r = _ |- _ => destruct r; simpl in F; subst
          | f : FileInfo |- _ =>
              let b := fresh "b" in destruct f as [b]; destruct b; simpl in *
          | |- forall _, _ =>
              let x := fresh "x" in
              let F := fresh "F" in
              intros x F; try cbn [faithful] in F
          | |- everyFaithful _ _ (defer _ (match ?d with _ => _ end)) =>
              destruct d; simpl in *
          | |- everyFaithful _ _ (match ?d with _ => _ end) =>
              destruct d; simpl in *
          end).

Ltac trace_leaf :=
  unfold handlerTrace; simpl;
  repeat split;
    try reflexivity;
    try (intros; discriminate);
    try (intros; congruence);
    try (repeat (apply Forall_cons_2; [simpl; auto|]); apply Forall_nil_2).

Lemma handleWebhook_everyFaithful c r :
  everyFaithful (handlerTrace (Join [HookPath c; URL_Path r; ".git"])) []
                (handleWebhook c r).
Proof.
  unfold handleWebhook.
  destruct (unmarshalPayload (Body r)) as [[v [e|]]|msg].
  - unfold http500. faithful_walk. trace_leaf.
  - destruct (call_Ref v) as [changed|msg]; [|trace_leaf].
    destruct (negb _).
    + unfold http500. faithful_walk. trace_leaf.
    + unfold criticalSection, synchronise, http500.
      faithful_walk; trace_leaf.
  - trace_leaf.
Qed.

(** Every run of the handler that starts with the mutex free leaves a
    trace of that kind. *)
Lemma handler_traces c r w :
  locked w = false ->
  handlerTrace (Join [HookPath c; URL_Path r; ".git"]) (callsOf c r w) (endingOf c r w).
Proof.
  intros L. destruct (handler_ends c r w L) as (E & _).
  pose proof (run_everyFaithful _ _ [] w (handleWebhook_everyFaithful c r)) as H.
  unfold callsOf, endingOf in *.
  destruct (run (handleWebhook c r) w) as [[t e] w']. simpl in *. auto.
Qed.

Lemma rejected_replies c r w :
  ~ accepted r -> replies (callsOf c r w) <> [(200, "ok")].
Proof.
  intros N. unfold callsOf.
  destruct (run_rejected c r w N) as [[msg E]|[msg E]]; rewrite E; discriminate.
Qed.

Lemma accepted_locks c r w :
  accepted r -> locked w = false -> existsb isLock (callsOf c r w) = true.
Proof.
  intros A L. destruct (accepted_run_shape c r w A L) as (f & t & -> & _). reflexivity.
Qed.

Lemma success_accepted c r w :
  replies (callsOf c r w) = [(200, "ok")] -> accepted r.
Proof.
  intros R. destruct (classic_accepted r) as [A|N]; [assumption|].
  by destruct (rejected_replies c r w N).
Qed.

(** ** The checks of the handler *)

(** X1: the first check that fails ends the run: the handler makes no
    further call on the file system or on git and writes one response,
    which is not 200. *)
Theorem first_failed_check_ends_the_run c r w :
  locked w = false -> stopsAtFirstFailure (callsOf c r w) = true.
Proof. intros L. apply (handler_traces c r w L). Qed.

Lemma first_failed_check_ends_the_run_witness :
  locked demoWorld = false /\
  existsb failedCheck (callsOf cfg (post "/not-a-repo" masterPush) demoWorld) = true /\
  stopsAtFirstFailure (callsOf cfg (post "/not-a-repo" masterPush) demoWorld) = true.
Proof.
  split; [reflexivity|]. split; [vm_compute; reflexivity|].
  apply (first_failed_check_ends_the_run cfg (post "/not-a-repo" masterPush) demoWorld).
  reflexivity.
Defined.

(** X2: the handler answers 200 [ok] exactly when the payload names
    master and none of the answers it tests was a failure: the two
    [os.Stat] calls and the git calls up to the lookup of the local
    master.  What [SetTarget] and [StateCleanup] answer plays no
    part. *)
Theorem success_iff_no_check_failed c r w :
  locked w = false ->
  (replies (callsOf c r w) = [(200, "ok")] <->
   accepted r /\ existsb failedCheck (callsOf c r w) = false).
Proof.
  intros L. destruct (handler_traces c r w L) as (_ & Ok & Ko & _). split.
  - intros R. split; [by apply (success_accepted c r w)|].
    destruct (existsb failedCheck (callsOf c r w)); [|reflexivity].
    by destruct (Ko eq_refl).
  - intros [A F]. apply Ok; [assumption|]. by apply accepted_locks.
Qed.

Lemma success_iff_no_check_failed_witness :
  locked lockedRefWorld = false /\
  (replies (callsOf cfg (post "/demo" masterPush) lockedRefWorld) = [(200, "ok")] <->
   accepted (post "/demo" masterPush) /\
   existsb failedCheck (callsOf cfg (post "/demo" masterPush) lockedRefWorld) = false).
Proof.
  split; [reflexivity|].
  apply (success_iff_no_check_failed cfg (post "/demo" masterPush) lockedRefWorld).
  reflexivity.
Defined.

(** ** The repository the handler works on *)

(** X3: every git call of the handler is made on the handle that
    [git.OpenRepositoryExtended] answered for the [.git] directory
    under the directory the request names, or on an object obtained
    from that handle. *)
Theorem handler_calls_one_repository c r w :
  locked w = false ->
  Forall (within (Join [HookPath c; URL_Path r; ".git"])) (callsOf c r w).
Proof. intros L. apply (handler_traces c r w L). Qed.

Lemma handler_calls_one_repository_witness :
  locked demoWorld = false /\
  List.length (filter (fun ev => onEvent (@isRepositoryCall) ev = true)
                 (callsOf cfg (post "/demo" masterPush) demoWorld)) = 16 /\
  Forall (within (Join [HookPath cfg; URL_Path (post "/demo" masterPush); ".git"]))
         (callsOf cfg (post "/demo" masterPush) demoWorld).
Proof.
  split; [reflexivity|]. split; [vm_compute; reflexivity|].
  apply (handler_calls_one_repository cfg (post "/demo" masterPush) demoWorld).
  reflexivity.
Defined.

(** ** The path guard and the failures behind it *)

(** C7: for a request that has passed the master filter, the joined
    path decides the response.  If it does not exist or is no
    directory the response is 404 with text [404], and [.git] is not
    looked at (one [os.Stat] only); if it is a directory whose [.git]
    does not exist or is no directory the response is 403 with text
    [403].  Past both checks, the failure of a call whose answer the
    handler tests is answered 500 with text [500], and without such a
    failure the response is 200 [ok].  Whatever the request, a
    response other than these 404 and 403 and than the 200 is 500
    with text [500].  But not every other failure is answered 500:
    once [SetTarget] has been called the response is 200 [ok] whatever
    the call answered, as it is in the working copy whose
    [refs/heads/master] cannot be written, where both [SetTarget]
    calls fail; and the body [[]], which no decoder parses, gets no
    response at all. *)
Theorem C7_path_guard :
  (forall c r w,
     accepted r -> locked w = false ->
     match files w !! Join [HookPath c; URL_Path r] with
     | Some Directory =>
         match files w !! Join [HookPath c; URL_Path r; ".git"] with
         | Some Directory =>
             (existsb failedCheck (callsOf c r w) = true ->
              replies (callsOf c r w) = [(500, "500")]) /\
             (existsb failedCheck (callsOf c r w) = false ->
              replies (callsOf c r w) = [(200, "ok")])
         | _ => replies (callsOf c r w) = [(403, "403")]
         end
     | _ =>
         replies (callsOf c r w) = [(404, "404")] /\
         List.length (filter (fun ev => isStat ev = true) (callsOf c r w)) = 1
     end) /\
  (forall c r w x,
     locked w = false -> x ∈ replies (callsOf c r w) ->
     x = (200, "ok") \/
     x = (500, "500") \/
     (x = (404, "404") /\ accepted r /\
      files w !! Join [HookPath c; URL_Path r] <> Some Directory) \/
     (x = (403, "403") /\ accepted r /\
      files w !! Join [HookPath c; URL_Path r] = Some Directory /\
      files w !! Join [HookPath c; URL_Path r; ".git"] <> Some Directory)) /\
  (forall c r w,
     locked w = false ->
     existsb isSetTarget (callsOf c r w) = true ->
     replies (callsOf c r w) = [(200, "ok")]) /\
  (filter (fun ev => isSetTarget ev = true)
          (callsOf cfg (post "/demo" masterPush) lockedRefWorld)
     = [Called (SetTarget demoMaster "c1") (inr ioError);
        Called (SetTarget demoMaster "c1") (inr ioError)] /\
   existsb failedCheck (callsOf cfg (post "/demo" masterPush) lockedRefWorld) = false /\
   replies (callsOf cfg (post "/demo" masterPush) lockedRefWorld) = [(200, "ok")]) /\
  (endingOf cfg (post "/demo" (JArray [])) demoWorld = Panicked nil_dereference /\
   replies (callsOf cfg (post "/demo" (JArray [])) demoWorld) = []).
Proof.
  split; [|split; [|split; [|split]]].
  - intros c r w A L.
    pose proof (path_guard_replies c r w A L) as G.
    destruct (handler_traces c r w L) as (_ & Ok & Ko & _).
    pose proof (accepted_locks c r w A L) as K.
    destruct (files w !! Join [HookPath c; URL_Path r]) as [[]|]; try exact G.
    destruct (files w !! Join [HookPath c; URL_Path r; ".git"]) as [[]|]; try exact G.
    split.
    + intros F. destruct G as [G|G]; [exact G|]. by destruct (Ko F).
    + intros F. by apply Ok.
  - intros c r w x L H. destruct (classic_accepted r) as [A|N].
    + pose proof (path_guard_replies c r w A L) as G.
      destruct (files w !! Join [HookPath c; URL_Path r]) as [[]|] eqn:D.
      * destruct (files w !! Join [HookPath c; URL_Path r; ".git"]) as [[]|] eqn:D'.
        -- destruct G as [G|G]; rewrite G in H; apply list_elem_of_singleton in H; auto.
        -- rewrite G in H. apply list_elem_of_singleton in H.
           right; right; right. repeat split; auto; discriminate.
        -- rewrite G in H. apply list_elem_of_singleton in H.
           right; right; right. repeat split; auto; discriminate.
      * destruct G as [G _]. rewrite G in H. apply list_elem_of_singleton in H.
        right; right; left. repeat split; auto; discriminate.
      * destruct G as [G _]. rewrite G in H. apply list_elem_of_singleton in H.
        right; right; left. repeat split; auto; discriminate.
    + unfold callsOf in H.
      destruct (run_rejected c r w N) as [[msg E]|[msg E]]; rewrite E in H; cbn in H.
      * by apply elem_of_nil in H.
      * apply list_elem_of_singleton in H. auto.
  - intros c r w L. apply (handler_traces c r w L).
  - repeat split; vm_compute; reflexivity.
  - split; vm_compute; reflexivity.
Qed.

Lemma C7_witness :
  accepted (post "/demo" masterPush) /\
  locked checkoutFailsWorld = false /\
  existsb failedCheck (callsOf cfg (post "/demo" masterPush) checkoutFailsWorld) = true /\
  replies (callsOf cfg (post "/demo" masterPush) checkoutFailsWorld) = [(500, "500")].
Proof.
  split; [apply accepted_masterPush|]. split; [reflexivity|].
  assert (F : existsb failedCheck (callsOf cfg (post "/demo" masterPush) checkoutFailsWorld)
              = true) by (vm_compute; reflexivity).
  split; [exact F|].
  destruct (proj1 C7_path_guard cfg (post "/demo" masterPush) checkoutFailsWorld
              (accepted_masterPush "/demo") eq_refl) as [K _].
  exact (K F).
Defined.

(** ** The work tree of a reported success *)

(** [SetTarget], whatever it answers, leaves the work tree alone and
    each reference as it was or at the new target. *)
Lemma exec_SetTarget_keeps rdir r target w x w' g :
  repo_path (ref_repo r) = rdir ->
  repositories w !! rdir = Some g ->
  exec (SetTarget r target) w = Reply x w' ->
  exists g', repositories w' !! rdir = Some g' /\
             worktree g' = worktree g /\
             forall name, refs g' !! name = refs g !! name \/ refs g' !! name = Some target.
Proof.
  intros <- G H. cbn [exec] in H. unfold reading in H.
  destruct (failing w _ _).
  { injection H as <- <-. exists g. auto. }
  rewrite G in H. unfold setTarget in H.
  destruct (String.eqb (ref_name r) "HEAD").
  - destruct (HEAD g) as [|id]; [injection H as <- <-; exists g; auto|].
    destruct (String.eqb id (Target r)); injection H as <- <-; [|exists g; auto].
    eexists. split; [apply lookup_setRepo|]. simpl. auto.
  - destruct (refs g !! ref_name r) as [id|]; [|injection H as <- <-; exists g; auto].
    destruct (String.eqb id (Target r)); injection H as <- <-; [|exists g; auto].
    eexists. split; [apply lookup_setRepo|]. split; [reflexivity|].
    intros name. simpl. destruct (decide (name = ref_name r)) as [->|N].
    + right. apply lookup_insert_eq.
    + left. by rewrite lookup_insert_ne.
Qed.

Lemma run_synchronise_checkout c r rdir w t e w' :
  run (synchronise c r rdir) w = (t, e, w') ->
  replies t = [(200, "ok")] ->
  exists g id,
    repositories w' !! rdir = Some g /\
    refs g !! "refs/remotes/origin/master" = Some id /\
    worktree g = TreeOf id.
Proof.
  intros H R. unfold synchronise in H.
  assert (F : failing w = failing w) by reflexivity.
  call H. injection E as <- <-.
  destruct (reading _ (git_OpenRepositoryExtended rdir) _ w _) as [repo|err] eqn:E1;
    [|failed H R].
  apply reading_inl in E1 as (g0 & G0 & E1). injection E1 as <-. cbn [repo_path] in G0.
  pose proof G0 as G.
  reads H R G.
  destruct (origin g0) as [up|] eqn:O; [|discriminate]. cbn in E. injection E as <-.
  writes H R G F.
  reads H R G.
  match type of E with
  | match refs ?g !! _ with _ => _ end = _ => set (g1 := g) in *
  end.
  destruct (refs g1 !! "refs/remotes/origin/master") as [id|] eqn:T; [|discriminate].
  injection E as <-. cbn [Target] in H. clearbody g1.
  reads H R G. injection E as <-.
  writes H R G F.
  reads H R G. injection E as <-.
  reads H R G. injection E as <-.
  writes H R G F.
  reads H R G. rename E into Hd. cbn [HEAD refs setWorktree setState] in Hd.
  reads H R G. cbn [refs setWorktree setState] in E.
  destruct (refs g1 !! "refs/heads/master") as [old|] eqn:M; [|discriminate].
  injection E as <-.
  set (g3 := setWorktree _ _) in G.
  assert (W3 : worktree g3 = TreeOf id) by reflexivity.
  assert (T3 : refs g3 !! "refs/remotes/origin/master" = Some id) by exact T.
  assert (RR : ref_repo r0 = {| repo_path := rdir |}).
  { clear -Hd. destruct (HEAD g1); [destruct (refs g1 !! _); [|discriminate]|];
      injection Hd as <-; reflexivity. }
  clearbody g3.
  call0 H E.
  destruct ((fun P => exec_SetTarget_keeps rdir _ _ _ _ _ g3 P G E) eq_refl)
    as (g4 & G4 & W4 & R4).
  clear E. call0 H E.
  destruct (exec_SetTarget_keeps rdir _ _ _ _ _ g4 (f_equal repo_path RR) G4 E)
    as (g5 & G5 & W5 & R5).
  clear E. call H.
  match type of H with
  | run _ ?xw = _ =>
      assert (exists g6, repositories xw !! rdir = Some g6 /\
                         refs g6 = refs g5 /\ worktree g6 = worktree g5)
        as (g6 & G6 & R6 & W6)
  end.
  { match type of E with
    | context [writing ?X ?e ?repo ?w ?f] =>
        destruct (writing_cases X e repo w f) as [[? W]|(g & G' & W)];
          rewrite W in E; injection E as <- <-
    end.
    - exists g5. auto.
    - cbn [repo_path] in G'. rewrite G5 in G'. injection G' as <-.
      eexists. split; [apply lookup_setRepo|]. auto. }
  clear E.
  call H. injection E as <- <-.
  call H. injection E as <- <-.
  call H. injection E as <- <-.
  cbn in H. injection H as <- <- <-.
  exists g6, id. split; [assumption|]. split.
  - rewrite R6. destruct (R5 "refs/remotes/origin/master") as [->| ->]; [|reflexivity].
    destruct (R4 "refs/remotes/origin/master") as [->| ->]; [assumption|reflexivity].
  - congruence.
Qed.

(** X5: a run that answers 200 [ok] has checked out the commit the
    tracking reference of [origin/master] is at, whatever the two
    [SetTarget] calls and [StateCleanup] have answered. *)
Theorem success_checks_out_tracked_commit c r w :
  locked w = false ->
  replies (callsOf c r w) = [(200, "ok")] ->
  exists g id,
    repositories (worldAfter c r w) !! Join [HookPath c; URL_Path r; ".git"] = Some g /\
    refs g !! "refs/remotes/origin/master" = Some id /\
    worktree g = TreeOf id.
Proof.
  intros L. intros R0. pose proof (success_accepted c r w R0) as A. revert R0.
  unfold callsOf, worldAfter.
  rewrite (run_accepted c r w A L), run_criticalSection. cbn [files setLocked].
  destruct (files w !! Join [HookPath c; URL_Path r]) as [[]|]; try discriminate.
  destruct (files w !! Join [HookPath c; URL_Path r; ".git"]) as [[]|]; try discriminate.
  destruct (run (synchronise c r _) (setLocked true w)) as [[t e] w'] eqn:S.
  cbn [fst snd].
  change (replies (Called (log_Printf _) tt :: Called mutex_Lock tt :: ?x))
    with (replies x).
  change (replies ((Called (os_Stat ?a) ?x :: Called (os_Stat ?b) ?y :: t)
                   ++ [Called mutex_Unlock tt]))
    with (replies (t ++ [Called mutex_Unlock tt])).
  rewrite replies_unlock. intros R.
  destruct (run_synchronise_checkout c r _ (setLocked true w) t e w' S R)
    as (g & id & G & T & W).
  exists g, id. auto.
Qed.

Lemma success_checks_out_tracked_commit_witness :
  locked lockedRefWorld = false /\
  replies (callsOf cfg (post "/demo" masterPush) lockedRefWorld) = [(200, "ok")] /\
  exists g id,
    repositories (worldAfter cfg (post "/demo" masterPush) lockedRefWorld)
      !! Join [HookPath cfg; URL_Path (post "/demo" masterPush); ".git"] = Some g /\
    refs g !! "refs/remotes/origin/master" = Some id /\
    worktree g = TreeOf id.
Proof.
  split; [reflexivity|].
  assert (R : replies (callsOf cfg (post "/demo" masterPush) lockedRefWorld)
              = [(200, "ok")]) by (vm_compute; reflexivity).
  split; [exact R|].
  apply (success_checks_out_tracked_commit cfg (post "/demo" masterPush) lockedRefWorld);
    [reflexivity|exact R].
Defined.

(** ** The synchronisation when the reference updates go through *)

(** X6: when no [SetTarget] call is hindered, a run that answers 200
    [ok] has left [refs/heads/master], HEAD and the tracking reference
    at one commit: the one the remote had at the fetch. *)
Theorem unhindered_success_moves_master c r w :
  locked w = false ->
  (forall ref target, failing w _ (SetTarget ref target) = false) ->
  replies (callsOf c r w) = [(200, "ok")] ->
  exists g0 g id,
    repositories w !! Join [HookPath c; URL_Path r; ".git"] = Some g0 /\
    repositories (worldAfter c r w) !! Join [HookPath c; URL_Path r; ".git"] = Some g /\
    match origin g0 with
    | Some (Some o) => id = o
    | _ => refs g0 !! "refs/remotes/origin/master" = Some id
    end /\
    syncedAt id g.
Proof.
  intros L NF R.
  destruct (success_resets_master c r w (success_accepted c r w R) L NF R)
    as (g0 & g & id & G0 & G & _ & _ & _ & U & Y).
  exists g0, g, id. auto.
Qed.

Lemma unhindered_success_moves_master_witness :
  exists g0 g id,
    repositories demoWorld
      !! Join [HookPath cfg; URL_Path (post "/demo" masterPush); ".git"] = Some g0 /\
    repositories (worldAfter cfg (post "/demo" masterPush) demoWorld)
      !! Join [HookPath cfg; URL_Path (post "/demo" masterPush); ".git"] = Some g /\
    match origin g0 with
    | Some (Some o) => id = o
    | _ => refs g0 !! "refs/remotes/origin/master" = Some id
    end /\
    syncedAt id g.
Proof.
  apply (unhindered_success_moves_master cfg (post "/demo" masterPush) demoWorld).
  - reflexivity.
  - intros ref target. reflexivity.
  - vm_compute. reflexivity.
Defined.

(** X7: under the same condition a second push with nothing new on
    the remote, answered 200 [ok] as well, ends at the same commit. *)
Theorem second_success_same_commit c r w :
  locked w = false ->
  (forall ref target, failing w _ (SetTarget ref target) = false) ->
  replies (callsOf c r w) = [(200, "ok")] ->
  replies (callsOf c r (worldAfter c r w)) = [(200, "ok")] ->
  exists g1 g2 id,
    repositories (worldAfter c r w) !! Join [HookPath c; URL_Path r; ".git"] = Some g1 /\
    repositories (worldAfter c r (worldAfter c r w)) !! Join [HookPath c; URL_Path r; ".git"]
      = Some g2 /\
    syncedAt id g1 /\ syncedAt id g2.
Proof.
  intros L NF R1 R2.
  exact (success_twice_same_commit c r w (success_accepted c r w R1) L NF R1 R2).
Qed.

Lemma second_success_same_commit_witness :
  exists g1 g2 id,
    repositories (worldAfter cfg (post "/demo" masterPush) demoWorld)
      !! Join [HookPath cfg; URL_Path (post "/demo" masterPush); ".git"] = Some g1 /\
    repositories (worldAfter cfg (post "/demo" masterPush)
                    (worldAfter cfg (post "/demo" masterPush) demoWorld))
      !! Join [HookPath cfg; URL_Path (post "/demo" masterPush); ".git"] = Some g2 /\
    syncedAt id g1 /\ syncedAt id g2.
Proof.
  apply (second_success_same_commit cfg (post "/demo" masterPush) demoWorld).
  - reflexivity.
  - intros ref target. reflexivity.
  - vm_compute. reflexivity.
  - vm_compute. reflexivity.
Defined.

(** ** Requests one after the other, and goroutines that have finished *)

Lemma serveAll_unlocked c rs :
  forall w, locked w = false -> locked (serveAll c rs w) = false.
Proof.
  induction rs as [|r rs IH]; intros w L; [assumption|].
  apply IH. by apply handler_ends.
Qed.

(** X8: requests served in turn: each handler finds the mutex free, so
    each returns or panics, none waits; and the mutex is free at the
    end. *)
Theorem served_in_turn c rs w :
  locked w = false ->
  locked (serveAll c rs w) = false /\
  forall n r, rs !! n = Some r ->
    endingOf c r (serveAll c (take n rs) w) = Returned \/
    exists msg, endingOf c r (serveAll c (take n rs) w) = Panicked msg.
Proof.
  intros L. split; [by apply serveAll_unlocked|].
  intros n r _. apply handler_ends. by apply serveAll_unlocked.
Qed.

Lemma served_in_turn_witness :
  locked demoWorld = false /\
  locked (serveAll cfg [post "/demo" masterPush; post "/demo" JNull;
                        post "/missing" masterPush] demoWorld) = false /\
  forall n r,
    [post "/demo" masterPush; post "/demo" JNull; post "/missing" masterPush] !! n = Some r ->
    endingOf cfg r (serveAll cfg (take n [post "/demo" masterPush; post "/demo" JNull;
                                          post "/missing" masterPush]) demoWorld) = Returned \/
    exists msg,
      endingOf cfg r (serveAll cfg (take n [post "/demo" masterPush; post "/demo" JNull;
                                            post "/missing" masterPush]) demoWorld)
      = Panicked msg.
Proof.
  split; [reflexivity|].
  apply (served_in_turn cfg [post "/demo" masterPush; post "/demo" JNull;
                             post "/missing" masterPush] demoWorld).
  reflexivity.
Defined.

(** X9: when every goroutine of the pool has returned or panicked, the
    mutex is free: no interleaving of handlers leaves it locked behind
    them. *)
Theorem finished_pool_leaves_mutex_free c w rs P :
  locked w = false -> reachable c w rs P ->
  Forall finished (pool P) -> locked (world P) = false.
Proof.
  intros L R F. destruct (invariant_reachable c w rs P L R) as (D & LH & _).
  destruct (locked (world P)) eqn:K; [|reflexivity].
  apply LH in K as (i & g & Hi & Hh).
  pose proof (D i g Hi) as B.
  rewrite Forall_lookup in F. specialize (F i g Hi). unfold finished in F.
  destruct (code g); simpl in B; [congruence|congruence|contradiction].
Qed.

(** Goroutine [i] makes its next call. *)
Ltac turn i := eapply rtc_l; [eapply (step_call _ i); reflexivity|].

(** Two pushes to master: the second goroutine logs, the first takes
    the mutex, answers 404 and releases it, then the second takes it,
    answers 403 and releases it. *)
Lemma finished_pool_leaves_mutex_free_witness :
  locked demoWorld = false /\
  existsb isLock (callsOf cfg (post "/missing" masterPush) demoWorld) = true /\
  existsb isLock (callsOf cfg (post "/not-a-repo" masterPush) demoWorld) = true /\
  reachable cfg demoWorld [post "/missing" masterPush; post "/not-a-repo" masterPush]
    {| world := demoWorld;
       pool := [{| code := Done tt; holding := false |};
                {| code := Done tt; holding := false |}] |} /\
  Forall finished (pool {| world := demoWorld;
                           pool := [{| code := Done tt; holding := false |};
                                    {| code := Done tt; holding := false |}] |}) /\
  locked (world {| world := demoWorld;
                   pool := [{| code := Done tt; holding := false |};
                            {| code := Done tt; holding := false |}] |}) = false.
Proof.
  assert (R : reachable cfg demoWorld
                [post "/missing" masterPush; post "/not-a-repo" masterPush]
                {| world := demoWorld;
                   pool := [{| code := Done tt; holding := false |};
                            {| code := Done tt; holding := false |}] |}).
  { unfold reachable. turn 1. do 6 turn 0. do 6 turn 1. apply rtc_refl. }
  assert (F : Forall finished (pool {| world := demoWorld;
                pool := [{| code := Done tt; holding := false |};
                         {| code := Done tt; holding := false |}] |})).
  { apply Forall_cons_2; [exact I|]. apply Forall_cons_2; [exact I|apply Forall_nil_2]. }
  split; [reflexivity|]. split; [vm_compute; reflexivity|].
  split; [vm_compute; reflexivity|]. split; [exact R|]. split; [exact F|].
  apply (finished_pool_leaves_mutex_free cfg demoWorld
           [post "/missing" masterPush; post "/not-a-repo" masterPush]
           {| world := demoWorld;
              pool := [{| code := Done tt; holding := false |};
                       {| code := Done tt; holding := false |}] |});
    [reflexivity|exact R|exact F].
Defined.

(* ===================================================================== *)
(** * Further properties of the decoders *)

Lemma decodeRefChangeMembers_strip ms :
  forall cur saved,
    decodeRefChangeMembers
      ((fun m => ("refId", snd m)) <$> List.filter (fun m => equalFold "refId" (fst m)) ms)
      cur saved
    = decodeRefChangeMembers ms cur saved.
Proof.
  induction ms as [|[k v] ms IH]; intros cur saved; [reflexivity|].
  simpl. destruct (equalFold "refId" k) eqn:E; simpl; [|apply IH].
  change (equalFold "refId" "refId") with true. cbv iota.
  destruct (decodeString v (RefID cur) saved). apply IH.
Qed.

Lemma decodeRefChange_strip v cur saved :
  decodeRefChange (stripRecord v) cur saved = decodeRefChange v cur saved.
Proof. destruct v; try reflexivity. apply decodeRefChangeMembers_strip. Qed.

Lemma decodeElems_strip vs :
  forall backing saved,
    decodeElems (stripRecord <$> vs) backing saved = decodeElems vs backing saved.
Proof.
  induction vs as [|v vs IH]; intros backing saved; [reflexivity|].
  rewrite fmap_cons. cbn [decodeElems].
  destruct backing as [|x xs]; rewrite decodeRefChange_strip;
    destruct (decodeRefChange v _ saved); by rewrite IH.
Qed.

Lemma decodeSlice_strip v cur saved :
  decodeSlice (stripRecords v) cur saved = decodeSlice v cur saved.
Proof.
  destruct v as [| | | |vs|]; try reflexivity.
  destruct vs as [|v vs]; [reflexivity|].
  unfold stripRecords, decodeSlice. rewrite fmap_cons, <- fmap_cons.
  rewrite decodeElems_strip. reflexivity.
Qed.

Lemma decodeBitbucketMembers_strip ms :
  forall cur saved,
    decodeBitbucketMembers (stripMembers ms) cur saved
    = decodeBitbucketMembers ms cur saved.
Proof.
  unfold stripMembers.
  induction ms as [|[k v] ms IH]; intros cur saved; [reflexivity|].
  simpl. destruct (equalFold "refChanges" k) eqn:E; simpl; [|apply IH].
  change (equalFold "refChanges" "refChanges") with true. cbv iota.
  rewrite decodeSlice_strip.
  destruct (decodeSlice v (RefChanges cur) saved). apply IH.
Qed.

(** X10: of a JSON object the handler reads only the members whose key
    matches [refChanges], letter case ignored, and of their records
    only the members whose key matches [refId]: the object and the
    object cut down to these members, under the names of the struct
    tags, are decoded alike and handled alike. *)
Theorem other_members_are_ignored :
  forall ms,
    unmarshalPayload (Bytes (Doc (JObject (stripMembers ms))))
    = unmarshalPayload (Bytes (Doc (JObject ms))) /\
    forall c path,
      handleWebhook c (post path (JObject (stripMembers ms)))
      = handleWebhook c (post path (JObject ms)).
Proof.
  intros ms.
  assert (U : unmarshalPayload (Bytes (Doc (JObject (stripMembers ms))))
              = unmarshalPayload (Bytes (Doc (JObject ms)))).
  { rewrite !unmarshalPayload_object. by rewrite decodeBitbucketMembers_strip. }
  split; [exact U|]. intros c path. unfold handleWebhook, post. cbn [Body URL_Path].
  by rewrite U.
Qed.

(** X11: the earlier [unmarshalPayload] returns a value or an error, never
    neither and never both. *)
Theorem unmarshalPayload_v1_value_or_error r :
  (exists s, unmarshalPayload_v1 r = (Some s, None)) \/
  (exists e, unmarshalPayload_v1 r = (None, Some e)).
Proof.
  destruct r as [e|[why|v]]; simpl; eauto.
  destruct v as [| | | | |ms]; simpl; eauto.
  destruct (snd (decodeBitbucketMembers ms zeroBitbucket None)); eauto.
Qed.

(** X12: where the earlier [unmarshalPayload] returns a value, and the body
    is not [null], the later one returns the same value without
    error. *)
Theorem unmarshalPayload_versions_agree r s :
  unmarshalPayload_v1 r = (Some s, None) -> r <> Bytes (Doc JNull) ->
  unmarshalPayload r = Ret (Some s, None).
Proof.
  intros H N. destruct r as [e|[why|v]]; try (simpl in H; discriminate).
  destruct v as [| | | | |ms]; try (simpl in H; discriminate).
  - by destruct N.
  - rewrite unmarshalPayload_object. simpl in H.
    destruct (decodeBitbucketMembers ms zeroBitbucket None) as [b [e|]]; simpl in H;
      [discriminate|]. by injection H as <-.
Qed.

Lemma unmarshalPayload_versions_agree_witness :
  unmarshalPayload_v1 (Bytes (Doc masterPush)) =
    (Some (Bitbucket {| RefChanges :=
        {| elems := [{| RefID := "refs/heads/master" |}]; spare := [] |} |}), None) /\
  Bytes (Doc masterPush) <> Bytes (Doc JNull) /\
  unmarshalPayload (Bytes (Doc masterPush)) =
    Ret (Some (Bitbucket {| RefChanges :=
        {| elems := [{| RefID := "refs/heads/master" |}]; spare := [] |} |}), None).
Proof.
  split; [reflexivity|]. split; [discriminate|].
  apply (unmarshalPayload_versions_agree (Bytes (Doc masterPush))).
  - reflexivity.
  - discriminate.
Defined.

(** X13: where the earlier [unmarshalPayload] returns the error of the
    decoder, the later one returns no error: a nil [Ref], or the
    [GitLabWebhook] value, which the second decoder leaves empty. *)
Theorem later_version_drops_decode_errors data e :
  unmarshalPayload_v1 (Bytes data) = (None, Some e) ->
  unmarshalPayload (Bytes data) = Ret (None, None) \/
  unmarshalPayload (Bytes data) = Ret (Some (GitLab zeroGitLab), None).
Proof.
  destruct data as [why|v]; [auto|].
  destruct v as [| | | | |ms]; try (simpl; auto; discriminate).
  intros H. right. rewrite unmarshalPayload_object. simpl in H.
  destruct (decodeBitbucketMembers ms zeroBitbucket None) as [b [e'|]]; simpl in H;
    [reflexivity|discriminate].
Qed.

Lemma later_version_drops_decode_errors_witness :
  unmarshalPayload_v1 (Bytes (Doc mistypedPush)) =
    (None, Some (UnmarshalTypeError "number" "[]struct { RefID string }")) /\
  (unmarshalPayload (Bytes (Doc mistypedPush)) = Ret (None, None) \/
   unmarshalPayload (Bytes (Doc mistypedPush)) = Ret (Some (GitLab zeroGitLab), None)).
Proof.
  split; [reflexivity|].
  apply (later_version_drops_decode_errors (Doc mistypedPush)
           (UnmarshalTypeError "number" "[]struct { RefID string }")).
  reflexivity.
Defined.

(* ===================================================================== *)
(** * Which bodies panic, and which are called invalid *)

Lemma unmarshalPayload_Bytes data :
  (exists v, unmarshalPayload (Bytes data) = Ret (v, None)) \/
  (exists msg, unmarshalPayload (Bytes data) = Panic msg).
Proof.
  simpl.
  destruct (json_Unmarshal data (Bitbucket zeroBitbucket)) as [[s1|] [e1|]]; eauto;
    destruct (json_Unmarshal data (GitLab zeroGitLab)) as [[s2|] [e2|]]; eauto.
Qed.

Lemma criticalSection_no_invalid_payload c r :
  every (fun t _ => existsb isInvalidPayload t = false) [] (criticalSection c r).
Proof.
  unfold criticalSection, synchronise, http500. every_walk; reflexivity.
Qed.

Lemma existsb_isInvalidPayload_unlock t :
  existsb isInvalidPayload (t ++ [Called mutex_Unlock tt]) = existsb isInvalidPayload t.
Proof. rewrite existsb_app. simpl. by rewrite !orb_false_r. Qed.

(** What the handler does with the body of a JSON object: it returns,
    unless it has to wait for the mutex. *)
Lemma object_body_ending c r w ms :
  Body r = Bytes (Doc (JObject ms)) ->
  endingOf c r w = Returned \/ endingOf c r w = Deadlocked.
Proof.
  intros B.
  pose proof (unmarshalPayload_object ms) as U. rewrite <- B in U.
  destruct (decodeBitbucketMembers ms zeroBitbucket None) as [b [e|]].
  - left. unfold endingOf, handleWebhook. rewrite U. reflexivity.
  - destruct (String.eqb (BitbucketServerWebhook_Ref b) "refs/heads/master") eqn:E.
    + assert (A : accepted r).
      { exists (Some (Bitbucket b)). split; [exact U|].
        apply String.eqb_eq in E. simpl. by rewrite E. }
      destruct (locked w) eqn:L.
      * right. unfold endingOf, handleWebhook. rewrite U. cbn [call_Ref]. rewrite E.
        cbn [negb run exec]. rewrite L. reflexivity.
      * left. by destruct (accepted_run_shape c r w A L) as (f & t & _ & _ & _ & _ & R & _).
    + left. unfold endingOf, handleWebhook. rewrite U. cbn [call_Ref]. rewrite E.
      reflexivity.
Qed.

(** X14: the handler panics exactly on the bodies that can be read and are
    not a JSON object: text that is no JSON, [null], and every other
    JSON value.  The state of the mutex and of the repositories plays
    no part. *)
Theorem handler_panics_iff_body_is_no_object c r w :
  (exists msg, endingOf c r w = Panicked msg) <->
  (exists data, Body r = Bytes data /\ forall ms, data <> Doc (JObject ms)).
Proof.
  split.
  - intros [msg P]. destruct (Body r) as [e|data] eqn:B.
    + unfold endingOf, handleWebhook in P. rewrite B in P. discriminate.
    + exists data. split; [reflexivity|]. intros ms ->.
      destruct (object_body_ending c r w ms B) as [E|E]; rewrite E in P; discriminate.
  - intros (data & B & N). unfold endingOf, handleWebhook. rewrite B.
    destruct data as [why|[| | | | |ms]]; simpl; eauto.
    by destruct (N ms).
Qed.

(** X15: the handler logs [invalid payload] exactly when the body could
    not be read: no body that has been read, whatever the decoders
    make of it, is reported as invalid. *)
Theorem invalid_payload_iff_unreadable_body c r w :
  existsb isInvalidPayload (callsOf c r w) = true <-> exists e, Body r = Broken e.
Proof.
  split.
  - intros H. destruct (Body r) as [e|data] eqn:B; [eauto|]. exfalso.
    assert (F : existsb isInvalidPayload (callsOf c r w) = false); [|congruence].
    clear H. unfold callsOf, handleWebhook. rewrite B.
    destruct (unmarshalPayload_Bytes data) as [[v U]|[msg U]]; rewrite U; [|reflexivity].
    destruct (call_Ref v) as [changed|msg] eqn:R; [|reflexivity].
    destruct (String.eqb changed "refs/heads/master") eqn:E; [|reflexivity].
    apply String.eqb_eq in E. subst changed.
    assert (A : accepted r) by (exists v; rewrite B; auto).
    destruct (locked w) eqn:L.
    + cbn [negb run exec]. rewrite L. reflexivity.
    + pose proof (run_accepted c r w A L) as RA. unfold handleWebhook in RA.
      rewrite B, U, R, String.eqb_refl in RA. rewrite RA. clear RA.
      pose proof (run_every _ _ [] (setLocked true w)
                    (criticalSection_no_invalid_payload c r)) as Q.
      pose proof (lockfree_run _ (setLocked true w) (lockfree_criticalSection c r)) as LF.
      destruct (run (criticalSection c r) (setLocked true w)) as [[t e] w'].
      cbn [fst]. cbn [existsb isInvalidPayload orb].
      rewrite existsb_isInvalidPayload_unlock. apply Q. tauto.
  - intros [e B]. unfold callsOf, handleWebhook. rewrite B. simpl.
    destruct (Error e); reflexivity.
Qed.

(* ===================================================================== *)
(** * The earlier handler *)

Lemma lockfree_handleWebhook_v1 c r : lockfree (handleWebhook_v1 c r).
Proof.
  unfold handleWebhook_v1. destruct (unmarshalPayload_v1 (Body r)) as [v [e|]].
  - unfold http500. lockfree_walk.
  - destruct (call_Ref v) as [changed|msg]; [|exact I].
    unfold synchronise_v1, http500. lockfree_walk.
Qed.

Lemma handleWebhook_v1_every c r :
  every (fun t e =>
           e = Returned /\
           List.length (replies t) = 1 /\
           existsb (onEvent (@isMutexCall)) t = false /\
           existsb isSetTarget t = false /\
           existsb isCheckoutTree t = false)
        [] (handleWebhook_v1 c r).
Proof.
  unfold handleWebhook_v1.
  destruct (Body r) as [e|[why|[| | | | |ms]]]; cbn [unmarshalPayload_v1 kind];
    try (unfold http500; every_walk; repeat split; reflexivity).
  - simpl. repeat split; reflexivity.
  - destruct (snd (decodeBitbucketMembers ms zeroBitbucket None)).
    + unfold http500; every_walk; repeat split; reflexivity.
    + cbn [call_Ref]. unfold synchronise_v1, http500; every_walk; repeat split; reflexivity.
Qed.

(** X16: the earlier handler never panics and never waits: it returns
    after exactly one response, takes no mutex and leaves the mutex
    as it found it, and calls neither [CheckoutTree] nor
    [SetTarget]. *)
Theorem handleWebhook_v1_answers_once c r w :
  let '(t, e, w') := run (handleWebhook_v1 c r) w in
  e = Returned /\
  List.length (replies t) = 1 /\
  existsb (onEvent (@isMutexCall)) t = false /\
  existsb isSetTarget t = false /\
  existsb isCheckoutTree t = false /\
  locked w' = locked w.
Proof.
  pose proof (run_every _ _ [] w (handleWebhook_v1_every c r)) as Q.
  pose proof (lockfree_run _ w (lockfree_handleWebhook_v1 c r)) as LF.
  destruct (run (handleWebhook_v1 c r) w) as [[t e] w'].
  destruct LF as (E & L & _). destruct (Q E) as (Q1 & Q2 & Q3 & Q4 & Q5).
  repeat split; auto.
Qed.

(* ===================================================================== *)
(** * The responses of the handler *)

(** X17: with the mutex free the handler panics before its first call, or
    returns after one response, which is one of 200 [ok], 403, 404 and
    500. *)
Theorem handler_answers_one_of_four c r w :
  locked w = false ->
  (exists msg, endingOf c r w = Panicked msg /\ callsOf c r w = []) \/
  (endingOf c r w = Returned /\
   (replies (callsOf c r w) = [(200, "ok")] \/
    replies (callsOf c r w) = [(403, "403")] \/
    replies (callsOf c r w) = [(404, "404")] \/
    replies (callsOf c r w) = [(500, "500")])).
Proof.
  intros L. destruct (classic_accepted r) as [A|N].
  - right. split; [by destruct (accepted_run_shape c r w A L) as (f & t & _ & _ & _ & _ & E & _)|].
    pose proof (path_guard_replies c r w A L) as G.
    destruct (files w !! Join [HookPath c; URL_Path r]) as [[]|]; [|tauto..].
    destruct (files w !! Join [HookPath c; URL_Path r; ".git"]) as [[]|]; tauto.
  - unfold endingOf, callsOf.
    destruct (run_rejected c r w N) as [[msg E]|[msg E]]; rewrite E; [left; eauto|].
    right. split; [reflexivity|]. do 3 right. reflexivity.
Qed.

Lemma handler_answers_one_of_four_witness :
  locked demoWorld = false /\
  ((exists msg, endingOf cfg (post "/notes.txt" masterPush) demoWorld = Panicked msg /\
                callsOf cfg (post "/notes.txt" masterPush) demoWorld = []) \/
   (endingOf cfg (post "/notes.txt" masterPush) demoWorld = Returned /\
    (replies (callsOf cfg (post "/notes.txt" masterPush) demoWorld) = [(200, "ok")] \/
     replies (callsOf cfg (post "/notes.txt" masterPush) demoWorld) = [(403, "403")] \/
     replies (callsOf cfg (post "/notes.txt" masterPush) demoWorld) = [(404, "404")] \/
     replies (callsOf cfg (post "/notes.txt" masterPush) demoWorld) = [(500, "500")]))).
Proof.
  split; [reflexivity|].
  apply (handler_answers_one_of_four cfg (post "/notes.txt" masterPush) demoWorld).
  reflexivity.
Defined.

(* ===================================================================== *)
(** * A handler that finds the mutex taken *)

(** X19: while another goroutine holds the mutex, a handler waits exactly
    when the payload names master: it has logged the update by then
    and made no call on the file system or on git.  Every other
    request is answered without waiting. *)
Theorem handler_waits_iff_accepted c r w :
  locked w = true ->
  (endingOf c r w = Deadlocked <-> accepted r) /\
  existsb (onEvent (@isRepositoryCall)) (callsOf c r w) = false /\
  worldAfter c r w = w.
Proof.
  intros L. destruct (classic_accepted r) as [A|N].
  - assert (E : run (handleWebhook c r) w =
                ([Called (log_Printf ("updating repository '"
                            ++ Join [HookPath c; URL_Path r] ++ "'" ++ nl)) tt],
                 Deadlocked, w)).
    { destruct A as (v & U & R). unfold handleWebhook. rewrite U, R, String.eqb_refl.
      cbn [negb run exec]. rewrite L. reflexivity. }
    unfold endingOf, callsOf, worldAfter. rewrite E. by repeat split.
  - unfold endingOf, callsOf, worldAfter.
    destruct (run_rejected c r w N) as [[msg E]|[msg E]]; rewrite E;
      (split; [split; [discriminate|intros A; by destruct N]|split; reflexivity]).
Qed.

Lemma handler_waits_iff_accepted_witness :
  locked (setLocked true demoWorld) = true /\
  (endingOf cfg (post "/demo" masterPush) (setLocked true demoWorld) = Deadlocked <->
   accepted (post "/demo" masterPush)) /\
  existsb (onEvent (@isRepositoryCall))
          (callsOf cfg (post "/demo" masterPush) (setLocked true demoWorld)) = false /\
  worldAfter cfg (post "/demo" masterPush) (setLocked true demoWorld)
  = setLocked true demoWorld.
Proof.
  split; [reflexivity|].
  apply (handler_waits_iff_accepted cfg (post "/demo" masterPush)
           (setLocked true demoWorld)).
  reflexivity.
Defined.
